(** * AssetManager: manifest scan and asset loading (src/core/AssetManager.js)

    A shallow embedding of the [AssetManager] class.

    - Objects used as dictionaries are finite maps with string keys; the
      glob object the scan iterates over is the list of its keys in
      iteration order, since later files overwrite earlier ones.
    - The methods are written in a state and exception monad over the
      manager, the closure variables of [load] and the [Loader] and [Howl]
      objects created so far.
    - pixi.js and howler are the environment: what they do after [load]
      has returned is a sequence of events (a loader reports a resource, a
      loader completes, a sound loads or fails), each running the listeners
      the class has registered.
    - A promise is known by what settles it; its state is read off the
      state of the loaders and sounds.
    - Numbers are exact rationals. *)

From Stdlib Require Import ZArith QArith Qround String Ascii List Lia.
From stdpp Require Import base option gmap strings list fin_maps.
Import ListNotations.

Local Open Scope string_scope.
Local Open Scope list_scope.

(** ** The fragment of the JavaScript library the class uses *)

Module JS.

(** [s.split(sep)] for a one-character separator: never the empty array. *)
Fixpoint split (sep : ascii) (s : string) : list string :=
  match s with
  | EmptyString => [EmptyString]
  | String c r =>
      if Ascii.eqb c sep then EmptyString :: split sep r
      else match split sep r with
           | h :: t => String c h :: t
           | [] => [String c EmptyString]
           end
  end.

Fixpoint drop (n : nat) (s : string) : string :=
  match n, s with
  | O, _ => s
  | S k, EmptyString => EmptyString
  | S k, String _ r => drop k r
  end.

(** [s.replace(pat, repl)] with a string pattern: the first occurrence
    only (the replacement strings used by the class hold no [$]). *)
Fixpoint replace (pat repl s : string) : string :=
  if String.prefix pat s then repl ++ drop (String.length pat) s
  else match s with
       | EmptyString => EmptyString
       | String c r => String c (replace pat repl r)
       end.

(** [arr.indexOf(x)]: [x] is [None] for [undefined], which no element of
    an array of strings is strictly equal to. *)
Fixpoint indexOf_from (i : Z) (arr : list string) (x : option string) : Z :=
  match arr with
  | [] => (-1)%Z
  | a :: rest =>
      match x with
      | Some s => if String.eqb a s then i else indexOf_from (i + 1)%Z rest x
      | None => indexOf_from (i + 1)%Z rest x
      end
  end.

Definition indexOf (arr : list string) (x : option string) : Z :=
  indexOf_from 0%Z arr x.

(** [parseInt(x, 10)] on a number: the decimal digits before the point,
    that is truncation toward zero (numbers are exact rationals here; the
    decimal rendering of a double is positional from 1e-6 up to 1e21). *)
Definition parseInt (x : Q) : Z := Z.quot (Qnum x) (Z.pos (Qden x)).

End JS.

(** ** Values held by the manager's dictionaries *)

Definition Texture := string.

Inductive Value : Type :=
| VStr (s : string)                 (* a url *)
| VHowl (src : Value)               (* new Howl({ src: [url] }) *)
| VSheetData (image : string)       (* spritesheet JSON, [data.meta.image] *)
| VSpritesheet (texture : option Texture) (data : Value)
                                    (* new Spritesheet(texture, data) *)
| VUndefined.

(** [obj[key]]: [undefined] for a missing key. *)
Definition js_get (obj : gmap string Value) (key : string) : Value :=
  default VUndefined (obj !! key).

Record AssetManager : Type := mkAssetManager {
  _assets : gmap string Value;
  _sounds : gmap string Value;
  _images : gmap string Value;
  _fonts : gmap string Value;
  _spritesheets : gmap string Value
}.

Definition set_assets (f : gmap string Value -> gmap string Value)
    (this : AssetManager) : AssetManager :=
  mkAssetManager (f (_assets this)) (_sounds this) (_images this)
                 (_fonts this) (_spritesheets this).
Definition set_sounds (f : gmap string Value -> gmap string Value)
    (this : AssetManager) : AssetManager :=
  mkAssetManager (_assets this) (f (_sounds this)) (_images this)
                 (_fonts this) (_spritesheets this).
Definition set_images (f : gmap string Value -> gmap string Value)
    (this : AssetManager) : AssetManager :=
  mkAssetManager (_assets this) (_sounds this) (f (_images this))
                 (_fonts this) (_spritesheets this).
Definition set_fonts (f : gmap string Value -> gmap string Value)
    (this : AssetManager) : AssetManager :=
  mkAssetManager (_assets this) (_sounds this) (_images this)
                 (f (_fonts this)) (_spritesheets this).
Definition set_spritesheets (f : gmap string Value -> gmap string Value)
    (this : AssetManager) : AssetManager :=
  mkAssetManager (_assets this) (_sounds this) (_images this)
                 (_fonts this) (f (_spritesheets this)).

(** ** The manifest scan *)

Definition IMG_EXTENSIONS : list string := ["jpeg"; "jpg"; "png"].
Definition SOUND_EXTENSIONS : list string := ["wav"; "ogg"; "m4a"; "mp3"].
Definition FONT_EXTENSIONS : list string := ["xml"; "fnt"].
Definition SPRITESHEET_EXTENSIONS : list string := ["json"].

Inductive Category : Type := Image | Sound | Font | Spritesheet.

Definition category_map (c : Category) (this : AssetManager)
    : gmap string Value :=
  match c with
  | Image => _images this
  | Sound => _sounds this
  | Font => _fonts this
  | Spritesheet => _spritesheets this
  end.

Definition extensions (c : Category) : list string :=
  match c with
  | Image => IMG_EXTENSIONS
  | Sound => SOUND_EXTENSIONS
  | Font => FONT_EXTENSIONS
  | Spritesheet => SPRITESHEET_EXTENSIONS
  end.

(** [let [id, ext] = filename.split(".")]: the first two pieces. *)
Definition file_id_raw (filename : string) : string :=
  match JS.split "." filename with
  | id :: _ => id
  | [] => EmptyString
  end.

Definition file_ext (filename : string) : option string :=
  match JS.split "." filename with
  | _ :: ext :: _ => Some ext
  | _ => None
  end.

Definition file_id (filename : string) : string :=
  JS.replace "/src/assets/" "" (file_id_raw filename).

Definition file_url (filename : string) : string :=
  JS.replace "src/assets/" "" filename.

(** The body of the [forEach] callback of [_importAssets]. *)
Definition import_file (this : AssetManager) (filename : string)
    : AssetManager :=
  let ext := file_ext filename in
  let id := file_id filename in
  let url := file_url filename in
  let this := set_assets <[id := VStr url]> this in
  let this :=
    if (JS.indexOf IMG_EXTENSIONS ext >? -1)%Z
    then set_images <[id := VStr url]> this else this in
  let this :=
    if (JS.indexOf SOUND_EXTENSIONS ext >? -1)%Z
    then set_sounds <[id := VStr url]> this else this in
  let this :=
    if (JS.indexOf FONT_EXTENSIONS ext >? -1)%Z
    then set_fonts <[id := VStr url]> this else this in
  if (JS.indexOf SPRITESHEET_EXTENSIONS ext >? -1)%Z
  then set_spritesheets <[id := VStr url]> this else this.

(** [_importAssets]: [assets] is the glob object, given by its keys in
    iteration order. *)
Definition _importAssets (assets : list string) (this : AssetManager)
    : AssetManager :=
  fold_left import_file assets this.

(** The constructor: empty dictionaries, then the scan. *)
Definition constructor (assets : list string) : AssetManager :=
  _importAssets assets (mkAssetManager ∅ ∅ ∅ ∅ ∅).


(** ** One [load()] invocation

    The state a call of [load] works on: the manager, the closure variables
    of the call ([assetTypesCount], [loadProgress]), the arguments the
    progress callback has been called with (oldest first), and the [Loader]
    and [Howl] objects created so far, each known by its creation index. *)

Record Config : Type := mkConfig { root : string }.

(** A reference to an object used as a dictionary.  The class writes to
    its own maps only, so an object of the caller is known by its entries;
    a request may also hold the manager's own maps, as the default request
    does ([Assets.fonts] in a request is [This Font]), and those are read
    at the time of each use. *)
Inductive Ref : Type :=
| Obj (entries : gmap string Value)
| This (c : Category).

Definition deref (m : AssetManager) (r : Ref) : gmap string Value :=
  match r with
  | Obj entries => entries
  | This c => category_map c m
  end.

(** The two progress callbacks [load] hands out. *)
Inductive Callback : Type :=
| PerImage (imagesCount : Z)   (* () => calcTotalProgress(100 / imagesCount) *)
| Total.                       (* calcTotalProgress *)

(** The two [onProgress] listeners the class registers. *)
Inductive Listener : Type :=
| OnAssetProgress (cb : Callback)
    (* () => progressCallback(loader.progress) *)
| OnSheetProgress (spritesheets : Ref) (cb : Callback).
    (* (loader, resource) => { ... spritesheet.parse(() => ...) } *)

Record Loader : Type := mkLoader {
  baseUrl : string;
  resources : list (string * Value);   (* loader.add(name, url) *)
  listeners : list Listener;           (* loader.onProgress.add(...) *)
  loading : bool;                      (* loader.load(...) was called *)
  completed : bool                     (* onComplete was dispatched *)
}.

Record Howl : Type := mkHowl {
  src : Value;
  loaded : bool                        (* "load" was emitted *)
}.

Record State : Type := mkState {
  this : AssetManager;
  assetTypesCount : Z;
  loadProgress : Q;
  calls : list Z;
  loaders : list Loader;
  howls : list Howl
}.

Definition initial (m : AssetManager) : State :=
  mkState m 0%Z 0%Q [] [] [].

Inductive Error : Type := TypeError.

Inductive Completion (A : Type) : Type :=
| Normal (a : A)
| Throw (e : Error).
Arguments Normal {A} a.
Arguments Throw {A} e.

Definition M (A : Type) : Type := State -> State * Completion A.

Definition ret {A} (a : A) : M A := fun s => (s, Normal a).
Definition bind {A B} (c : M A) (k : A -> M B) : M B :=
  fun s => match c s with
           | (s', Normal a) => k a s'
           | (s', Throw e) => (s', Throw e)
           end.
Definition throw {A} (e : Error) : M A := fun s => (s, Throw e).
Definition get : M State := fun s => (s, Normal s).
Definition modify (f : State -> State) : M unit := fun s => (f s, Normal tt).

Notation "'let!' x ':=' c 'in' k" := (bind c (fun x => k))
  (at level 10, x name, c at level 100, k at level 200).
Notation "'exec' c 'then' k" := (bind c (fun _ => k))
  (at level 10, c at level 100, k at level 200).

Fixpoint forM_ {A} (l : list A) (body : A -> M unit) : M unit :=
  match l with
  | [] => ret tt
  | x :: rest => exec body x then forM_ rest body
  end.

Fixpoint mapM {A B} (l : list A) (body : A -> M B) : M (list B) :=
  match l with
  | [] => ret []
  | x :: rest =>
      let! y := body x in let! ys := mapM rest body in ret (y :: ys)
  end.

Definition set_this (f : AssetManager -> AssetManager) (s : State) : State :=
  mkState (f (this s)) (assetTypesCount s) (loadProgress s) (calls s)
          (loaders s) (howls s).
Definition set_loaders (f : list Loader -> list Loader) (s : State) : State :=
  mkState (this s) (assetTypesCount s) (loadProgress s) (calls s)
          (f (loaders s)) (howls s).
Definition set_howls (f : list Howl -> list Howl) (s : State) : State :=
  mkState (this s) (assetTypesCount s) (loadProgress s) (calls s)
          (loaders s) (f (howls s)).

(** [calcTotalProgress]. *)
Definition calcTotalProgress (val : Q) (s : State) : State :=
  let lp := (loadProgress s + val / inject_Z (assetTypesCount s))%Q in
  mkState (this s) (assetTypesCount s) lp (calls s ++ [JS.parseInt lp])
          (loaders s) (howls s).

Definition call (cb : Callback) (arg : Q) (s : State) : State :=
  match cb with
  | PerImage imagesCount => calcTotalProgress (100 / inject_Z imagesCount)%Q s
  | Total => calcTotalProgress arg s
  end.

(** *** Objects of pixi.js and howler the class creates and drives *)

Inductive Promise : Type :=
| LoaderPromise (i : nat)   (* new Promise(loader.load.bind(loader)) *)
| HowlPromise (h : nat).    (* new Promise((res) => sound.once("load", res)) *)

(** An element of the array given to [Promise.all]. *)
Inductive Item : Type :=
| ItemPromise (p : Promise)
| ItemArray (ps : list Promise).   (* a plain array: not a thenable *)

Definition update_loader (i : nat) (f : Loader -> Loader) : M unit :=
  modify (set_loaders (alter f i)).

(** [new Loader(baseUrl)]. *)
Definition new_Loader (base : string) : M nat :=
  fun s => (set_loaders (fun ls => ls ++ [mkLoader base [] [] false false]) s,
            Normal (length (loaders s))).

(** [loader.add(name, url)]; the names of one queue are the keys of one
    object, hence distinct, and pixi's own checks of its arguments are not
    part of the model. *)
Definition loader_add (i : nat) (name : string) (url : Value) : M unit :=
  update_loader i (fun ld =>
    mkLoader (baseUrl ld) (resources ld ++ [(name, url)]) (listeners ld)
             (loading ld) (completed ld)).

(** [loader.onProgress.add(listener)]. *)
Definition loader_onProgress_add (i : nat) (l : Listener) : M unit :=
  update_loader i (fun ld =>
    mkLoader (baseUrl ld) (resources ld) (listeners ld ++ [l])
             (loading ld) (completed ld)).

(** [new Promise(loader.load.bind(loader))]: the executor calls
    [loader.load(resolve, reject)]; [load] takes one callback, which it
    registers for [onComplete], and starts the queue. *)
Definition new_Promise_load (i : nat) : M Promise :=
  exec update_loader i (fun ld =>
    mkLoader (baseUrl ld) (resources ld) (listeners ld) true (completed ld))
  then ret (LoaderPromise i).

(** [new Howl({ src: [url] })]. *)
Definition new_Howl (url : Value) : M nat :=
  fun s => (set_howls (fun hs => hs ++ [mkHowl url false]) s,
            Normal (length (howls s))).

(** *** The methods *)

(** [Object.entries(obj)], in the order of [map_to_list]. *)
Definition entries_of (obj : Ref) : M (list (string * Value)) :=
  fun s => (s, Normal (map_to_list (deref (this s) obj))).

Definition loadAssets (config : Config) (images : Ref)
    (progressCallback : Callback) : M Promise :=
  let! loader := new_Loader (root config) in
  let! entries := entries_of images in
  exec forM_ entries (fun '(img, url) => loader_add loader img url)
  then exec loader_onProgress_add loader (OnAssetProgress progressCallback)
  then new_Promise_load loader.

Definition _loadSound (id : string) (url : Value) : M Promise :=
  let! sound := new_Howl url in
  exec modify (set_this (set_sounds <[id := VHowl url]>))
  then ret (HowlPromise sound).

(** [Promise.all(soundPromises).then(progressCallback(100))] evaluates the
    argument of [then], a call of the callback, on the spot; the array of
    promises is what the method returns. *)
Definition loadSounds (sounds : Ref)
    (progressCallback : Callback) : M (list Promise) :=
  let! entries := entries_of sounds in
  let! soundPromises :=
    mapM entries (fun '(id, url) => _loadSound id url) in
  exec modify (call progressCallback 100)
  then ret soundPromises.

(** [data.meta.image]: a [TypeError] unless [data] has a [meta] object. *)
Definition meta_image (data : Value) : M Value :=
  match data with
  | VSheetData image => ret (VStr image)
  | _ => throw TypeError
  end.

Definition loadSpritesheets (spritesheets : Ref)
    (progressCallback : Callback) : M Promise :=
  let! loader := new_Loader "" in
  let! entries := entries_of spritesheets in
  exec forM_ entries (fun '(id, data) =>
         let! image := meta_image data in loader_add loader id image)
  then exec loader_onProgress_add loader
         (OnSheetProgress spritesheets progressCallback)
  then new_Promise_load loader.

(** A load request: an object whose keys name categories.  The default
    one holds the manager's four category maps themselves. *)
Definition default_request : gmap string Ref :=
  <["images" := This Image]>
    (<["sounds" := This Sound]>
      (<["fonts" := This Font]>
        (<["spritesheets" := This Spritesheet]> ∅))).

(** [obj ? Object.keys(obj).length : 0]. *)
Definition keys_length (m : AssetManager) (obj : option Ref) : Z :=
  match obj with
  | Some o => Z.of_nat (size (deref m o))
  | None => 0%Z
  end.

(** [load(assets, progressCallback)]: the result stands for
    [Promise.all(loadPromises)]. *)
Definition load (config : Config) (assets : option (gmap string Ref))
    : M (list Item) :=
  let! s0 := get in
  let assets := default default_request assets in
  let images := assets !! "images" in
  let sounds := assets !! "sounds" in
  let fonts := assets !! "fonts" in
  let spritesheets := assets !! "spritesheets" in
  let imagesCount := keys_length (this s0) images in
  let soundsCount := keys_length (this s0) sounds in
  let fontsCount := keys_length (this s0) fonts in
  let spritesheetsCount := keys_length (this s0) spritesheets in
  exec modify (fun s =>
         mkState (this s) (Z.of_nat (size assets)) 0%Q (calls s)
                 (loaders s) (howls s))
  then
  let loadPromises := [] in
  let! loadPromises :=
    if (imagesCount =? 0)%Z then ret loadPromises
    else let! p := loadAssets config (default (Obj ∅) images)
                              (PerImage imagesCount)
         in ret (loadPromises ++ [ItemPromise p]) in
  let! loadPromises :=
    if (soundsCount =? 0)%Z then ret loadPromises
    else let! ps := loadSounds (default (Obj ∅) sounds) Total
         in ret (loadPromises ++ [ItemArray ps]) in
  let! loadPromises :=
    if (fontsCount =? 0)%Z then ret loadPromises
    else let! p := loadAssets config (default (Obj ∅) fonts) Total
         in ret (loadPromises ++ [ItemPromise p]) in
  let! loadPromises :=
    if (spritesheetsCount =? 0)%Z then ret loadPromises
    else let! p := loadSpritesheets (default (Obj ∅) spritesheets) Total
         in ret (loadPromises ++ [ItemPromise p]) in
  ret loadPromises.

(** *** What the loaders and sounds do afterwards *)

(** The resource a loader reports: [resource.name], [resource.texture]
    (none when the fetch or the decoding failed) and [resource.error]. *)
Record Resource : Type := mkResource {
  name : string;
  texture : option Texture;
  error : bool
}.

(** Any sequence of events is allowed: the properties below hold whatever
    the order, the number and the outcome of the loads. *)
Inductive Event : Type :=
| Progress (i : nat) (resource : Resource) (progress : Q)
    (* loader [i] dispatches onProgress; [loader.progress] is [progress] *)
| Parsed (i : nat) (progress : Q)
    (* a sheet made by the listener of loader [i] has finished [parse],
       which calls the function it was given; [loader.progress] is
       [progress] by then *)
| Complete (i : nat)          (* loader [i] dispatches onComplete *)
| HowlLoad (h : nat)          (* sound [h] emits "load" *)
| HowlLoadError (h : nat).    (* sound [h] emits "loaderror": no listener *)

(** The listeners of [loadAssets] and [loadSpritesheets]. *)
Definition on_progress (resource : Resource) (progress : Q)
    (s : State) (l : Listener) : State :=
  match l with
  | OnAssetProgress cb => call cb progress s
  | OnSheetProgress spritesheets _ =>
      let spritesheet :=
        VSpritesheet (texture resource)
                     (js_get (deref (this s) spritesheets) (name resource)) in
      set_this (set_spritesheets <[name resource := spritesheet]>) s
  end.

Definition on_parsed (progress : Q) (s : State) (l : Listener) : State :=
  match l with
  | OnAssetProgress _ => s
  | OnSheetProgress _ cb => call cb progress s
  end.

Definition step (s : State) (e : Event) : State :=
  match e with
  | Progress i resource progress =>
      match loaders s !! i with
      | Some ld =>
          if loading ld
          then fold_left (on_progress resource progress) (listeners ld) s
          else s
      | None => s
      end
  | Parsed i progress =>
      match loaders s !! i with
      | Some ld =>
          if loading ld
          then fold_left (on_parsed progress) (listeners ld) s
          else s
      | None => s
      end
  | Complete i =>
      set_loaders (alter (fun ld =>
        mkLoader (baseUrl ld) (resources ld) (listeners ld) (loading ld)
                 (loading ld)) i) s
  | HowlLoad h =>
      set_howls (alter (fun hw => mkHowl (src hw) true) h) s
  | HowlLoadError h => s
  end.

Definition run (events : list Event) (s : State) : State :=
  fold_left step events s.

(** *** Promise states *)

Inductive PState : Type := Pending | Fulfilled | Rejected.

(** The state of a promise once the pending jobs have run.  A loader's
    promise is fulfilled by [onComplete] ([loader.load] takes the completion
    callback only, so the [reject] it is handed as second argument is
    dropped), a sound's by "load" (its executor names [res] alone). *)
Definition promise_state (s : State) (p : Promise) : PState :=
  match p with
  | LoaderPromise i =>
      match loaders s !! i with
      | Some ld => if completed ld then Fulfilled else Pending
      | None => Pending
      end
  | HowlPromise h =>
      match howls s !! h with
      | Some hw => if loaded hw then Fulfilled else Pending
      | None => Pending
      end
  end.

(** [Promise.all] takes an element that is not a thenable as fulfilled. *)
Definition item_state (s : State) (it : Item) : PState :=
  match it with
  | ItemPromise p => promise_state s p
  | ItemArray _ => Fulfilled
  end.

Definition is_rejected (st : PState) : bool :=
  match st with Rejected => true | _ => false end.
Definition is_fulfilled (st : PState) : bool :=
  match st with Fulfilled => true | _ => false end.

(** [Promise.all(items)]. *)
Definition promise_all (s : State) (items : list Item) : PState :=
  if existsb (fun it => is_rejected (item_state s it)) items then Rejected
  else if forallb (fun it => is_fulfilled (item_state s it)) items
       then Fulfilled
       else Pending.


(** * Vocabulary of the properties *)

(** ** The scan *)

(** The extension of a file: the text after the last dot of its name. *)
Definition extension (f : string) : string :=
  List.last (JS.split "." f) EmptyString.

(** The test the scan makes for category [c] on file [f]. *)
Definition classified (c : Category) (f : string) : bool :=
  (JS.indexOf (extensions c) (file_ext f) >? -1)%Z.

(** Every id of a category map has an entry in the combined map, a url
    whose extension is one of that category. *)
Definition manifest_consistent (m : AssetManager) : Prop :=
  ∀ c id, is_Some (category_map c m !! id) →
    ∃ url, _assets m !! id = Some (VStr url) ∧ extension url ∈ extensions c.

(** ** The states the methods lead to *)

Definition add_resources (extra : list (string * Value)) (ld : Loader)
    : Loader :=
  mkLoader (baseUrl ld) (resources ld ++ extra) (listeners ld)
           (loading ld) (completed ld).

(** One more loader. *)
Definition with_loader (ld : Loader) (s : State) : State :=
  set_loaders (fun ls => ls ++ [ld]) s.

(** The sounds map and the state after [_loadSound] on every entry. *)
Definition store_sounds (l : list (string * Value))
    (sounds : gmap string Value) : gmap string Value :=
  fold_left (fun m '(id, url) => <[id := VHowl url]> m) l sounds.

Definition after_sounds (l : list (string * Value)) (s : State) : State :=
  set_howls (fun hs => hs ++ map (fun '(_, url) => mkHowl url false) l)
            (set_this (set_sounds (store_sounds l)) s).

(** The queue [loadSpritesheets] builds, when every entry has a [meta]
    object, and what it has queued when the first one without is met. *)
Fixpoint sheet_queue (l : list (string * Value))
    : option (list (string * Value)) :=
  match l with
  | [] => Some []
  | (id, VSheetData image) :: rest =>
      match sheet_queue rest with
      | Some q => Some ((id, VStr image) :: q)
      | None => None
      end
  | _ :: _ => None
  end.

Fixpoint sheet_prefix (l : list (string * Value))
    : list (string * Value) :=
  match l with
  | (id, VSheetData image) :: rest => (id, VStr image) :: sheet_prefix rest
  | _ => []
  end.

(** The closure variables at the start of [load]. *)
Definition reset (n : Z) (s : State) : State :=
  mkState (this s) n 0%Q (calls s) (loaders s) (howls s).

(** The loader [loadAssets] leaves behind: queued, listening, started. *)
Definition asset_loader (config : Config) (images : gmap string Value)
    (cb : Callback) : Loader :=
  mkLoader (root config) (map_to_list images) [OnAssetProgress cb]
           true false.

(** The array [loadSounds] returns. *)
Definition sound_promises (sounds : gmap string Value) (s : State)
    : list Promise :=
  map HowlPromise (seq (length (howls s)) (length (map_to_list sounds))).

(** ** Progress *)

(** What a callback hands to [calcTotalProgress]. *)
Definition amount (cb : Callback) (progress : Q) : Q :=
  match cb with
  | PerImage imagesCount => 100 / inject_Z imagesCount
  | Total => progress
  end.

(** The running weighted sum: every amount divided by [n], added up. *)
Fixpoint running_sums (n : Z) (acc : Q) (vals : list Q) : list Q :=
  match vals with
  | [] => []
  | v :: rest =>
      let acc' := (acc + v / inject_Z n)%Q in
      acc' :: running_sums n acc' rest
  end.

Definition total (n : Z) (acc : Q) (vals : list Q) : Q :=
  fold_left (fun a v => (a + v / inject_Z n)%Q) vals acc.


(** The amounts an event makes the listeners hand to
    [calcTotalProgress], in order. *)
Definition listener_advance (e : Event) (l : Listener) : list Q :=
  match e, l with
  | Progress _ _ p, OnAssetProgress cb => [amount cb p]
  | Parsed _ p, OnSheetProgress _ cb => [amount cb p]
  | _, _ => []
  end.

Definition event_loader (e : Event) : option nat :=
  match e with
  | Progress i _ _ | Parsed i _ => Some i
  | _ => None
  end.

Definition advances (ls : list Loader) (e : Event) : list Q :=
  match event_loader e with
  | Some i =>
      match ls !! i with
      | Some ld =>
          if loading ld then flat_map (listener_advance e) (listeners ld)
          else []
      | None => []
      end
  | None => []
  end.




(** The amounts handed to [calcTotalProgress] before [load] returns. *)
Definition dispatched (m : AssetManager) (request : gmap string Ref)
    : list Q :=
  if (keys_length m (request !! "sounds") =? 0)%Z then [] else [100%Q].

(** ** What events leave alone *)

Definition handlers (ld : Loader) : list Listener * bool :=
  (listeners ld, loading ld).

Record frame (s s' : State) : Prop := mkFrame {
  frame_count : assetTypesCount s' = assetTypesCount s;
  frame_handlers : handlers <$> loaders s' = handlers <$> loaders s;
  frame_howls : src <$> howls s' = src <$> howls s;
  frame_assets : _assets (this s') = _assets (this s);
  frame_images : _images (this s') = _images (this s);
  frame_fonts : _fonts (this s') = _fonts (this s);
  frame_sounds : _sounds (this s') = _sounds (this s);
  frame_sheets : ∀ id, is_Some (_spritesheets (this s) !! id) →
                       is_Some (_spritesheets (this s') !! id)
}.

(** ** Inputs of the concrete runs *)

Definition a_config : Config := mkConfig "/".
Definition no_assets : AssetManager := mkAssetManager ∅ ∅ ∅ ∅ ∅.

(** A resource that was fetched and decoded, and one that was not. *)
Definition fetched (name url : string) : Resource :=
  mkResource name (Some url) false.
Definition failed (name : string) : Resource := mkResource name None true.

(** ** More vocabulary: file names *)

(** No dot in a piece of a path. *)
Fixpoint dotless (s : string) : bool :=
  match s with
  | EmptyString => true
  | String c r => negb (Ascii.eqb c ".") && dotless r
  end.

(** ** More vocabulary: spritesheets *)


(** ** More vocabulary: events *)

(** The number of resources loader [i] reports in a run. *)
Fixpoint count_reports (i : nat) (events : list Event) : nat :=
  match events with
  | [] => 0
  | Progress j _ _ :: rest =>
      if Nat.eqb j i then S (count_reports i rest) else count_reports i rest
  | _ :: rest => count_reports i rest
  end.

(** ** More vocabulary: the signal *)

(** The loader a promised element of the signal waits for. *)
Definition awaited_loader (it : Item) : option nat :=
  match it with
  | ItemPromise (LoaderPromise i) => Some i
  | _ => None
  end.

(** The signal waits for the [k] first loaders and for no sound. *)
Definition awaits_loaders (k : nat) (items : list Item) : Prop :=
  omap awaited_loader items = seq 0 k ∧
  ∀ h, ItemPromise (HowlPromise h) ∉ items.

(** A loader completes only once started. *)
Definition started_if_completed (ld : Loader) : Prop :=
  completed ld = true → loading ld = true.


(** ** The splash scene (scenes/Splash.js) *)

(** The object [Splash.preload] hands on: [{ images: { logo:
    Assets.images.logo, bunny: Assets.images.bunny }, sounds: {}, fonts:
    Assets.fonts, spritesheets: {} }]. *)
Definition Splash_preload (m : AssetManager) : gmap string Ref :=
  let images : gmap string Value :=
    <["bunny" := js_get (_images m) "bunny"]>
      (<["logo" := js_get (_images m) "logo"]> ∅) in
  let sounds : gmap string Value := ∅ in
  let spritesheets : gmap string Value := ∅ in
  <["spritesheets" := Obj spritesheets]>
    (<["fonts" := This Font]>
      (<["sounds" := Obj sounds]>
        (<["images" := Obj images]> ∅))).

(** * Properties *)

(** ** The manifest scan *)

Section Scan.

Implicit Types (m : AssetManager) (f id : string) (c : Category).

Lemma importAssets_snoc fs f m :
  _importAssets (fs ++ [f]) m = import_file (_importAssets fs m) f.
Proof. unfold _importAssets. by rewrite fold_left_app. Qed.

Lemma import_file_assets m f :
  _assets (import_file m f) = <[file_id f := VStr (file_url f)]> (_assets m).
Proof. unfold import_file. by repeat case_match. Qed.

Lemma import_file_category c m f :
  category_map c (import_file m f) =
  if classified c f
  then <[file_id f := VStr (file_url f)]> (category_map c m)
  else category_map c m.
Proof.
  unfold import_file, classified.
  destruct c; cbn [extensions category_map]; by repeat case_match.
Qed.

(** Where each entry of the scan result comes from. *)
Lemma scan_category_origin fs : ∀ c id v,
  category_map c (constructor fs) !! id = Some v →
  ∃ f, f ∈ fs ∧ file_id f = id ∧ v = VStr (file_url f) ∧
       classified c f = true.
Proof.
  unfold constructor.
  induction fs as [|f fs IH] using rev_ind; intros c id v.
  - destruct c; cbn; by rewrite lookup_empty.
  - rewrite importAssets_snoc, import_file_category.
    destruct (classified c f) eqn:Hc.
    + destruct (decide (file_id f = id)) as [<-|Hne].
      * rewrite lookup_insert_eq. intros [= <-].
        exists f. split_and!; auto. set_solver.
      * rewrite lookup_insert_ne by done. intros H.
        destruct (IH _ _ _ H) as (g & ? & ? & ? & ?).
        exists g. split_and!; auto. set_solver.
    + intros H. destruct (IH _ _ _ H) as (g & ? & ? & ? & ?).
      exists g. split_and!; auto. set_solver.
Qed.

Lemma scan_assets_origin fs : ∀ id v,
  _assets (constructor fs) !! id = Some v →
  ∃ f, f ∈ fs ∧ file_id f = id ∧ v = VStr (file_url f).
Proof.
  unfold constructor.
  induction fs as [|f fs IH] using rev_ind; intros id v.
  - cbn. by rewrite lookup_empty.
  - rewrite importAssets_snoc, import_file_assets.
    destruct (decide (file_id f = id)) as [<-|Hne].
    + rewrite lookup_insert_eq. intros [= <-]. exists f. set_solver.
    + rewrite lookup_insert_ne by done. intros H.
      destruct (IH _ _ H) as (g & ? & ? & ?). exists g. set_solver.
Qed.

Lemma scan_assets_complete fs : ∀ f,
  f ∈ fs → is_Some (_assets (constructor fs) !! file_id f).
Proof.
  unfold constructor.
  induction fs as [|g fs IH] using rev_ind; intros f Hf.
  - set_solver.
  - rewrite importAssets_snoc, import_file_assets.
    destruct (decide (file_id g = file_id f)) as [->|Hne].
    + rewrite lookup_insert_eq. eauto.
    + rewrite lookup_insert_ne by done. apply IH.
      apply elem_of_app in Hf as [Hf|Hf]; [done|].
      apply list_elem_of_singleton in Hf. by subst.
Qed.

(** With one dot in the path, the piece the scan reads is the extension. *)
Lemma single_dot_extension f a b :
  JS.split "." f = [a; b] → file_ext f = Some (extension f).
Proof. unfold file_ext, extension. by intros ->. Qed.

Lemma NoDup_fmap_eq {A B} (g : A → B) (l : list A) x y :
  NoDup (g <$> l) → x ∈ l → y ∈ l → g x = g y → x = y.
Proof.
  induction l as [|a l IH]; [set_solver|].
  rewrite fmap_cons, NoDup_cons. intros [Hn Hd] Hx Hy Hg.
  apply elem_of_cons in Hx as [->|Hx]; apply elem_of_cons in Hy as [->|Hy];
    auto.
  - exfalso. apply Hn. rewrite Hg. by apply list_elem_of_fmap_2.
  - exfalso. apply Hn. rewrite <- Hg. by apply list_elem_of_fmap_2.
Qed.

End Scan.

(** ** What the methods do to the state *)

Section Methods.

Implicit Types (s : State) (ld : Loader).

Lemma add_resources_nil ld : add_resources [] ld = ld.
Proof. destruct ld. unfold add_resources. cbn. by rewrite app_nil_r. Qed.

Lemma add_resources_app l1 l2 ld :
  add_resources l2 (add_resources l1 ld) = add_resources (l1 ++ l2) ld.
Proof. unfold add_resources. cbn. by rewrite app_assoc. Qed.

Lemma set_loaders_compose f g s :
  set_loaders f (set_loaders g s) = set_loaders (f ∘ g) s.
Proof. done. Qed.

Lemma set_loaders_alter_nil i s :
  set_loaders (alter (add_resources []) i) s = s.
Proof.
  destruct s. unfold set_loaders. cbn. f_equal.
  apply list_alter_id. intros. apply add_resources_nil.
Qed.

Lemma forM_loader_add i (l : list (string * Value)) : ∀ s,
  forM_ l (fun '(img, url) => loader_add i img url) s =
  (set_loaders (alter (add_resources l) i) s, Normal tt).
Proof.
  induction l as [|[img url] l IH]; intros s; cbn [forM_].
  - unfold ret. by rewrite set_loaders_alter_nil.
  - unfold bind at 1. unfold loader_add at 1, update_loader, modify.
    rewrite IH. f_equal. rewrite set_loaders_compose.
    destruct s. unfold set_loaders. cbn. f_equal.
    unfold compose. rewrite list_alter_alter_eq.
    apply list_alter_ext; [|done].
    intros ld _. unfold compose. apply (add_resources_app [(img, url)] l).
Qed.

Lemma loadAssets_eq config images cb s :
  loadAssets config images cb s =
  (with_loader (mkLoader (root config)
                         (map_to_list (deref (this s) images))
                         [OnAssetProgress cb] true false) s,
   Normal (LoaderPromise (length (loaders s)))).
Proof.
  unfold loadAssets, bind, new_Loader, entries_of. rewrite forM_loader_add.
  unfold loader_onProgress_add, new_Promise_load, bind, update_loader,
    modify, ret.
  f_equal. destruct s as [t n lp cs ls hs]. unfold with_loader, set_loaders.
  cbn. f_equal.
  replace (length ls) with (length ls + 0)%nat by lia.
  by rewrite !alter_app_r.
Qed.

Lemma mapM_loadSound (l : list (string * Value)) : ∀ s,
  mapM l (fun '(id, url) => _loadSound id url) s =
  (after_sounds l s,
   Normal (map HowlPromise (seq (length (howls s)) (length l)))).
Proof.
  induction l as [|[id url] l IH]; intros s; cbn [mapM].
  - unfold ret, after_sounds, set_howls, set_this, set_sounds.
    destruct s as [[] ? ? ? ? ?]. cbn. by rewrite app_nil_r.
  - unfold bind at 1. unfold _loadSound at 1, bind, new_Howl, modify, ret.
    unfold bind. rewrite IH. cbn. f_equal; [|f_equal].
    + destruct s as [[] ? ? ? ? hs].
      unfold after_sounds, set_howls, set_this, set_sounds. cbn.
      by rewrite <- app_assoc.
    + f_equal. f_equal. f_equal. rewrite length_app. cbn. lia.
Qed.

Lemma loadSounds_eq sounds cb s :
  loadSounds sounds cb s =
  (call cb 100 (after_sounds (map_to_list (deref (this s) sounds)) s),
   Normal (sound_promises (deref (this s) sounds) s)).
Proof.
  unfold loadSounds, bind, entries_of. rewrite mapM_loadSound. done.
Qed.

Lemma forM_sheets i (l : list (string * Value)) : ∀ s,
  forM_ l (fun '(id, data) =>
             let! image := meta_image data in loader_add i id image) s =
  match sheet_queue l with
  | Some q => (set_loaders (alter (add_resources q) i) s, Normal tt)
  | None =>
      (set_loaders (alter (add_resources (sheet_prefix l)) i) s,
       Throw TypeError)
  end.
Proof.
  induction l as [|[id data] l IH]; intros s; cbn [forM_ sheet_queue].
  - unfold ret. by rewrite set_loaders_alter_nil.
  - unfold bind at 1.
    destruct data; cbn [meta_image sheet_prefix]; unfold bind, throw, ret;
      try (by rewrite set_loaders_alter_nil).
    unfold loader_add at 1, update_loader, modify. rewrite IH.
    assert (H : ∀ q, set_loaders (alter (add_resources q) i)
                (set_loaders (alter (add_resources [(id, VStr image)]) i) s)
              = set_loaders
                  (alter (add_resources ((id, VStr image) :: q)) i) s).
    { intros q. destruct s. unfold set_loaders. cbn. f_equal.
      rewrite list_alter_alter_eq. apply list_alter_ext; [|done].
      intros ld _. unfold compose.
      apply (add_resources_app [(id, VStr image)] q). }
    destruct (sheet_queue l); by rewrite <- H.
Qed.

Lemma loadSpritesheets_eq spritesheets cb s :
  loadSpritesheets spritesheets cb s =
  match sheet_queue (map_to_list (deref (this s) spritesheets)) with
  | Some q =>
      (with_loader (mkLoader "" q [OnSheetProgress spritesheets cb]
                             true false) s,
       Normal (LoaderPromise (length (loaders s))))
  | None =>
      (with_loader (mkLoader ""
                     (sheet_prefix (map_to_list (deref (this s) spritesheets)))
                     [] false false) s,
       Throw TypeError)
  end.
Proof.
  unfold loadSpritesheets. unfold bind at 1. unfold new_Loader.
  cbv beta iota. unfold bind at 1. unfold entries_of at 1.
  cbv beta iota. unfold bind at 1. rewrite forM_sheets.
  destruct s as [t n lp cs ls hs]. cbn [this set_loaders].
  destruct (sheet_queue (map_to_list (deref t spritesheets)));
    unfold loader_onProgress_add, new_Promise_load, bind, update_loader,
      modify, ret, with_loader, set_loaders; cbn; f_equal; f_equal;
    replace (length ls) with (length ls + 0)%nat by lia;
    by rewrite !alter_app_r.
Qed.

Lemma load_eq config assets s :
  load config assets s =
  let assets := default default_request assets in
  let images := assets !! "images" in
  let sounds := assets !! "sounds" in
  let fonts := assets !! "fonts" in
  let spritesheets := assets !! "spritesheets" in
  let m := this s in
  let s0 := reset (Z.of_nat (size assets)) s in
  let '(s1, p1) :=
    if (keys_length m images =? 0)%Z then (s0, [])
    else (with_loader
            (asset_loader config (deref (this s0) (default (Obj ∅) images))
                          (PerImage (keys_length m images))) s0,
          [ItemPromise (LoaderPromise (length (loaders s0)))]) in
  let '(s2, p2) :=
    if (keys_length m sounds =? 0)%Z then (s1, p1)
    else (call Total 100
            (after_sounds
               (map_to_list (deref (this s1) (default (Obj ∅) sounds))) s1),
          p1 ++ [ItemArray
                   (sound_promises
                      (deref (this s1) (default (Obj ∅) sounds)) s1)]) in
  let '(s3, p3) :=
    if (keys_length m fonts =? 0)%Z then (s2, p2)
    else (with_loader
            (asset_loader config (deref (this s2) (default (Obj ∅) fonts))
                          Total) s2,
          p2 ++ [ItemPromise (LoaderPromise (length (loaders s2)))]) in
  if (keys_length m spritesheets =? 0)%Z then (s3, Normal p3)
  else match sheet_queue
               (map_to_list (deref (this s3) (default (Obj ∅) spritesheets)))
       with
       | Some q =>
           (with_loader (mkLoader "" q
              [OnSheetProgress (default (Obj ∅) spritesheets) Total]
              true false) s3,
            Normal (p3 ++ [ItemPromise
                             (LoaderPromise (length (loaders s3)))]))
       | None =>
           (with_loader (mkLoader ""
              (sheet_prefix
                 (map_to_list
                    (deref (this s3) (default (Obj ∅) spritesheets))))
              [] false false) s3,
            Throw TypeError)
       end.
Proof.
  unfold load, bind at 1, get. unfold bind at 1, modify.
  fold (reset (Z.of_nat (size (default default_request assets))) s).
  cbv zeta.
  set (s0 := reset _ s).
  unfold bind at 1.
  destruct (keys_length _ (_ !! "images") =? 0)%Z;
    [unfold ret at 1 | unfold bind at 1; rewrite loadAssets_eq;
                       unfold ret at 1];
    (unfold bind at 1;
     destruct (keys_length _ (_ !! "sounds") =? 0)%Z;
     [unfold ret at 1 | unfold bind at 1; rewrite loadSounds_eq;
                        unfold ret at 1]);
    (unfold bind at 1;
     destruct (keys_length _ (_ !! "fonts") =? 0)%Z;
     [unfold ret at 1 | unfold bind at 1; rewrite loadAssets_eq;
                        unfold ret at 1]);
    (unfold bind at 1;
     destruct (keys_length _ (_ !! "spritesheets") =? 0)%Z;
     [done | unfold bind at 1; rewrite loadSpritesheets_eq;
             by destruct (sheet_queue _)]).
Qed.

End Methods.

(** Case analysis on the four counts of [load]. *)
Ltac load_cases :=
  rewrite load_eq; cbv zeta;
  repeat match goal with
    | |- context [if (keys_length ?m ?o =? 0)%Z then _ else _] =>
        destruct (keys_length m o =? 0)%Z eqn:?
    end;
  try match goal with
    | |- context [sheet_queue ?l] => destruct (sheet_queue l) eqn:?
    end;
  cbv beta iota.

(** ** Progress arithmetic *)

Section Progress.

Implicit Types (s : State) (n : Z) (acc v : Q) (vals : list Q).

Lemma call_amount cb p s : call cb p s = calcTotalProgress (amount cb p) s.
Proof. by destruct cb. Qed.

Lemma running_sums_app n vals1 : ∀ acc vals2,
  running_sums n acc (vals1 ++ vals2) =
  running_sums n acc vals1 ++ running_sums n (total n acc vals1) vals2.
Proof.
  induction vals1 as [|v vals1 IH]; intros acc vals2; [done|].
  cbn. by rewrite IH.
Qed.

Lemma total_app n vals1 vals2 acc :
  total n acc (vals1 ++ vals2) = total n (total n acc vals1) vals2.
Proof. unfold total. by rewrite fold_left_app. Qed.







End Progress.

(** ** Events *)

Section Events.

Implicit Types (s : State) (e : Event) (ld : Loader) (l : Listener).

Lemma frame_refl s : frame s s.
Proof. by split. Qed.

Lemma frame_trans s1 s2 s3 : frame s1 s2 → frame s2 s3 → frame s1 s3.
Proof.
  intros [] []. split; try congruence. auto.
Qed.

Lemma frame_calc v s : frame s (calcTotalProgress v s).
Proof. by split. Qed.

Lemma frame_store_sheet id v s :
  frame s (set_this (set_spritesheets <[id := v]>) s).
Proof.
  split; try done. intros k Hk. cbn.
  destruct (decide (id = k)) as [->|Hne].
  - rewrite lookup_insert_eq. eauto.
  - by rewrite lookup_insert_ne.
Qed.

Lemma frame_on_progress r p s l : frame s (on_progress r p s l).
Proof.
  destruct l; cbn [on_progress].
  - rewrite call_amount. apply frame_calc.
  - apply frame_store_sheet.
Qed.

Lemma frame_on_parsed p s l : frame s (on_parsed p s l).
Proof.
  destruct l; cbn [on_parsed]; [apply frame_refl|].
  rewrite call_amount. apply frame_calc.
Qed.

Lemma frame_fold (f : State → Listener → State) ls :
  (∀ s l, frame s (f s l)) → ∀ s, frame s (fold_left f ls s).
Proof.
  intros Hf. induction ls as [|l ls IH]; intros s; [apply frame_refl|].
  cbn. eapply frame_trans; [apply Hf | apply IH].
Qed.

Lemma fmap_alter_same {A B} (f : A → B) (g : A → A) (xs : list A) :
  (∀ x, f (g x) = f x) → ∀ i, f <$> alter g i xs = f <$> xs.
Proof.
  intros Hg. induction xs as [|x xs IH]; intros [|i]; cbn; try done.
  - by rewrite Hg.
  - f_equal. apply IH.
Qed.

Lemma frame_step s e : frame s (step s e).
Proof.
  destruct e as [i r p|i p|i|h|h]; cbn [step].
  - destruct (loaders s !! i) as [ld|]; [|apply frame_refl].
    destruct (loading ld); [|apply frame_refl].
    apply frame_fold. intros. apply frame_on_progress.
  - destruct (loaders s !! i) as [ld|]; [|apply frame_refl].
    destruct (loading ld); [|apply frame_refl].
    apply frame_fold. intros. apply frame_on_parsed.
  - split; try done. cbn. by apply fmap_alter_same.
  - split; try done. cbn. by apply fmap_alter_same.
  - apply frame_refl.
Qed.

Lemma frame_run events : ∀ s, frame s (run events s).
Proof.
  induction events as [|e events IH]; intros s; [apply frame_refl|].
  cbn. eapply frame_trans; [apply frame_step | apply IH].
Qed.

Lemma advances_frame s s' e :
  frame s s' → advances (loaders s') e = advances (loaders s) e.
Proof.
  intros [_ H _ _ _ _ _ _]. unfold advances.
  destruct (event_loader e) as [i|]; [|done].
  assert (Hi : handlers <$> (loaders s' !! i)
             = handlers <$> (loaders s !! i)).
  { by rewrite <- !list_lookup_fmap, H. }
  destruct (loaders s' !! i) as [ld'|], (loaders s !! i) as [ld|];
    cbn in Hi; try done.
  injection Hi as Hl Hb. by rewrite Hl, Hb.
Qed.

(** Progress made by one event, and by a run of events. *)
Lemma fold_on_progress i r p ls : ∀ s,
  let vals := flat_map (listener_advance (Progress i r p)) ls in
  let s' := fold_left (on_progress r p) ls s in
  loadProgress s' = total (assetTypesCount s) (loadProgress s) vals ∧
  calls s' = calls s ++ map JS.parseInt
               (running_sums (assetTypesCount s) (loadProgress s) vals).
Proof.
  induction ls as [|l ls IH]; intros s; cbn.
  - by rewrite app_nil_r.
  - destruct (IH (on_progress r p s l)) as [IH1 IH2].
    rewrite IH1, IH2. destruct l; cbn [on_progress listener_advance].
    + rewrite call_amount. cbn. by rewrite <- app_assoc.
    + done.
Qed.

Lemma fold_on_parsed i p ls : ∀ s,
  let vals := flat_map (listener_advance (Parsed i p)) ls in
  let s' := fold_left (on_parsed p) ls s in
  loadProgress s' = total (assetTypesCount s) (loadProgress s) vals ∧
  calls s' = calls s ++ map JS.parseInt
               (running_sums (assetTypesCount s) (loadProgress s) vals).
Proof.
  induction ls as [|l ls IH]; intros s; cbn.
  - by rewrite app_nil_r.
  - destruct (IH (on_parsed p s l)) as [IH1 IH2].
    rewrite IH1, IH2. destruct l; cbn [on_parsed listener_advance].
    + done.
    + rewrite call_amount. cbn. by rewrite <- app_assoc.
Qed.

Lemma step_progress s e :
  let vals := advances (loaders s) e in
  loadProgress (step s e)
    = total (assetTypesCount s) (loadProgress s) vals ∧
  calls (step s e)
    = calls s ++ map JS.parseInt
        (running_sums (assetTypesCount s) (loadProgress s) vals).
Proof.
  destruct e as [i r p|i p|i|h|h]; cbn [step advances event_loader];
    try (cbn; by rewrite app_nil_r).
  - destruct (loaders s !! i) as [ld|]; [|cbn; by rewrite app_nil_r].
    destruct (loading ld); [|cbn; by rewrite app_nil_r].
    apply fold_on_progress.
  - destruct (loaders s !! i) as [ld|]; [|cbn; by rewrite app_nil_r].
    destruct (loading ld); [|cbn; by rewrite app_nil_r].
    apply fold_on_parsed.
Qed.

Lemma run_progress events : ∀ s,
  let vals := flat_map (advances (loaders s)) events in
  loadProgress (run events s)
    = total (assetTypesCount s) (loadProgress s) vals ∧
  calls (run events s)
    = calls s ++ map JS.parseInt
        (running_sums (assetTypesCount s) (loadProgress s) vals).
Proof.
  induction events as [|e events IH]; intros s.
  - cbn. by rewrite app_nil_r.
  - change (run (e :: events) s) with (run events (step s e)).
    cbn [flat_map]. cbv zeta.
    destruct (IH (step s e)) as [IH1 IH2].
    destruct (step_progress s e) as [H1 H2].
    pose proof (frame_step s e) as Hf.
    rewrite IH1, IH2, H1, H2, (frame_count _ _ Hf).
    rewrite (flat_map_ext _ _ (fun e' => advances_frame _ _ e' Hf)).
    by rewrite total_app, running_sums_app, map_app, <- app_assoc.
Qed.

End Events.

(** ** The dispatch phase of [load] *)

Section Dispatch.

Implicit Types (s : State) (m : AssetManager).


Lemma load_progress config assets s :
  let request := default default_request assets in
  let n := Z.of_nat (size request) in
  let s1 := (load config assets s).1 in
  assetTypesCount s1 = n ∧
  loadProgress s1 = total n 0 (dispatched (this s) request) ∧
  calls s1 = calls s ++ map JS.parseInt
                          (running_sums n 0 (dispatched (this s) request)).
Proof.
  cbv zeta. unfold dispatched.
  load_cases; cbn; by rewrite ?app_nil_r.
Qed.

(** What [load] has done to the manager when it returns: the sounds of
    the request are in the sounds map. *)
Lemma load_this config assets s :
  let request := default default_request assets in
  let sounds := request !! "sounds" in
  let s1 := (load config assets s).1 in
  _assets (this s1) = _assets (this s) ∧
  _images (this s1) = _images (this s) ∧
  _fonts (this s1) = _fonts (this s) ∧
  _spritesheets (this s1) = _spritesheets (this s) ∧
  _sounds (this s1) =
    if (keys_length (this s) sounds =? 0)%Z then _sounds (this s)
    else store_sounds
           (map_to_list (deref (this s) (default (Obj ∅) sounds)))
           (_sounds (this s)).
Proof.
  cbv zeta.
  load_cases; cbn; by rewrite ?app_nil_r.
Qed.


(** [store_sounds], the bulk of [_loadSound]. *)
Lemma store_sounds_snoc l id url (m : gmap string Value) :
  store_sounds (l ++ [(id, url)]) m = <[id := VHowl url]> (store_sounds l m).
Proof. unfold store_sounds. by rewrite fold_left_app. Qed.

Lemma store_sounds_keeps l (m : gmap string Value) id :
  is_Some (m !! id) → is_Some (store_sounds l m !! id).
Proof.
  induction l as [|[k u] l IH] using rev_ind; [done|].
  intros H. rewrite store_sounds_snoc.
  destruct (decide (k = id)) as [->|Hne].
  - rewrite lookup_insert_eq. eauto.
  - rewrite lookup_insert_ne by done. auto.
Qed.

Lemma store_sounds_stores l (m : gmap string Value) id url :
  NoDup l.*1 → (id, url) ∈ l →
  store_sounds l m !! id = Some (VHowl url).
Proof.
  induction l as [|[k u] l IH] using rev_ind; [set_solver|].
  rewrite fmap_app, NoDup_app. cbn. intros (Hl & Hk & _) Hin.
  rewrite store_sounds_snoc.
  apply elem_of_app in Hin as [Hin|Hin].
  - assert (k ≠ id).
    { intros ->. apply (Hk id); [|set_solver].
      apply list_elem_of_fmap. by exists (id, url). }
    rewrite lookup_insert_ne by done. auto.
  - apply list_elem_of_singleton in Hin. injection Hin as -> ->.
    by rewrite lookup_insert_eq.
Qed.

Lemma store_sounds_map (sounds m : gmap string Value) id url :
  sounds !! id = Some url →
  store_sounds (map_to_list sounds) m !! id = Some (VHowl url).
Proof.
  intros H. apply store_sounds_stores.
  - apply NoDup_fst_map_to_list.
  - by apply elem_of_map_to_list.
Qed.

End Dispatch.

(** ** Progress reported by one invocation *)

Section Reported.






Lemma reported_eq config assets m events :
  let request := default default_request assets in
  let s1 := (load config assets (initial m)).1 in
  calls (run events s1) =
  map JS.parseInt
    (running_sums (Z.of_nat (size request)) 0
       (dispatched m request ++ flat_map (advances (loaders s1)) events)).
Proof.
  cbv zeta.
  destruct (load_progress config assets (initial m)) as (Hn & Hp & Hc).
  destruct (run_progress events (load config assets (initial m)).1)
    as [_ Hr].
  cbn [this initial calls] in Hn, Hp, Hc.
  rewrite Hr, Hn, Hp, Hc, running_sums_app, map_app. done.
Qed.

End Reported.

(** ** The loaders [load] starts *)

Section Loaders.

Implicit Types (s : State) (m : AssetManager).

Lemma keys_length_entry m (obj : Ref) id url :
  deref m obj !! id = Some url → (keys_length m (Some obj) =? 0)%Z = false.
Proof.
  intros H. apply Z.eqb_neq. cbn.
  assert (size (deref m obj) ≠ 0%nat); [|lia].
  intros Hz. apply map_size_empty_iff in Hz. rewrite Hz in H.
  by rewrite lookup_empty in H.
Qed.

Lemma load_images_loader config assets s images :
  default default_request assets !! "images" = Some images →
  (keys_length (this s) (Some images) =? 0)%Z = false →
  asset_loader config (deref (this s) images)
               (PerImage (keys_length (this s) (Some images)))
    ∈ loaders (load config assets s).1.
Proof.
  intros Hreq Hn. load_cases; rewrite Hreq in *; try congruence;
    cbn; rewrite ?elem_of_app, ?list_elem_of_singleton; auto 10.
Qed.

(** The fonts are read after the sounds have been stored. *)
Lemma load_fonts_loader config assets s fonts :
  default default_request assets !! "fonts" = Some fonts →
  (keys_length (this s) (Some fonts) =? 0)%Z = false →
  asset_loader config (deref (this (load config assets s).1) fonts) Total
    ∈ loaders (load config assets s).1.
Proof.
  intros Hreq Hn. load_cases; rewrite Hreq in *; try congruence;
    cbn; rewrite ?elem_of_app, ?list_elem_of_singleton; auto 10.
Qed.

Lemma load_deref config assets s (obj : Ref) :
  obj ≠ This Sound →
  deref (this (load config assets s).1) obj = deref (this s) obj.
Proof.
  intros Hobj.
  destruct (load_this config assets s) as (_ & Hi & Hf & Hs & _).
  destruct obj as [|[]]; cbn [deref category_map]; congruence.
Qed.


Lemma run_this_frame config assets m events :
  let s1 := (load config assets (initial m)).1 in
  let s2 := run events s1 in
  _assets (this s2) = _assets m ∧
  _images (this s2) = _images m ∧
  _fonts (this s2) = _fonts m ∧
  _sounds (this s2) = _sounds (this s1) ∧
  (∀ id, is_Some (_spritesheets m !! id) →
         is_Some (_spritesheets (this s2) !! id)).
Proof.
  cbv zeta.
  destruct (load_this config assets (initial m)) as (Ha & Hi & Hf & Hs & _).
  destruct (frame_run events (load config assets (initial m)).1).
  cbn [this initial] in *. split_and!; try congruence.
  intros id Hid. apply frame_sheets0. by rewrite Hs.
Qed.

Lemma promise_state_not_rejected s p : promise_state s p ≠ Rejected.
Proof.
  destruct p as [i|h]; cbn.
  - destruct (loaders s !! i) as [[? ? ? ? []]|]; done.
  - destruct (howls s !! h) as [[? []]|]; done.
Qed.

Lemma promise_all_not_rejected s items : promise_all s items ≠ Rejected.
Proof.
  unfold promise_all.
  assert (H : existsb (fun it => is_rejected (item_state s it)) items = false).
  { induction items as [|it items IH]; [done|]. cbn. rewrite IH.
    destruct it as [p|ps]; cbn; [|done].
    pose proof (promise_state_not_rejected s p).
    by destruct (promise_state s p). }
  rewrite H. by destruct (forallb _ _).
Qed.

End Loaders.

(** The divisions of [calcTotalProgress] and of the image callback are by
    positive counts: a request without keys hands no amount at all, and the
    image callback exists for a positive [imagesCount] only ([load_good]). *)
Lemma amounts_divided_by_positive_count config assets m events :
  let request := default default_request assets in
  let s1 := (load config assets (initial m)).1 in
  dispatched m request ++ flat_map (advances (loaders s1)) events ≠ [] →
  (0 < size request)%nat.
Proof.
  cbv zeta. intros Hne.
  destruct (size (default default_request assets)) eqn:Hsize; [|lia].
  exfalso. apply Hne. clear Hne.
  apply map_size_empty_iff in Hsize.
  destruct assets as [request|]; cbn in Hsize.
  - subst request.
    assert (Hl : loaders (load config (Some ∅) (initial m)).1 = []).
    { rewrite load_eq. cbn. reflexivity. }
    rewrite Hl.
    assert (Hd : dispatched m ∅ = []) by done.
    assert (He : flat_map (advances []) events = []).
    { induction events as [|e events IH]; [done|]. cbn. rewrite IH.
      unfold advances. by destruct (event_loader e) as [[|i]|]. }
    change (dispatched m ∅ ++ flat_map (advances []) events = []).
    by rewrite Hd, He.
  - apply (f_equal (fun r => r !! "images")) in Hsize.
    vm_compute in Hsize. discriminate.
Qed.

(** * The claims *)

(** C1. [load({ images: { logo: "/logo.png" }, sounds: {} })] has one
    non-empty category; its only image loads and the loader completes, yet
    the last (and only) value handed to the progress callback is 50, not
    100: [assetTypesCount] counts the keys of the request, the empty
    [sounds] among them.  Likewise [load({ images: {}, sounds: { click:
    "/click.wav" } })], which starts no loader: whatever happens
    afterwards, 50 is the only value the callback ever gets. *)
Theorem final_progress_counts_empty_categories :
  (let request : gmap string Ref :=
     <["images" := Obj {["logo" := VStr "/logo.png"]}]>
       (<["sounds" := Obj ∅]> ∅) in
   let '(s1, signal) := load a_config (Some request) (initial no_assets) in
   let s2 :=
     run [Progress 0 (fetched "logo" "/logo.png") 100; Complete 0] s1 in
   keys_length no_assets (request !! "images") = 1%Z ∧
   keys_length no_assets (request !! "sounds") = 0%Z ∧
   signal = Normal [ItemPromise (LoaderPromise 0)] ∧
   promise_all s2 [ItemPromise (LoaderPromise 0)] = Fulfilled ∧
   calls s2 = [50%Z] ∧
   last (calls s2) = Some 50%Z) ∧
  (let request : gmap string Ref :=
     <["images" := Obj ∅]>
       (<["sounds" := Obj {["click" := VStr "/click.wav"]}]> ∅) in
   let s1 := (load a_config (Some request) (initial no_assets)).1 in
   ∀ events, calls (run events s1) = [50%Z]).
Proof.
  split; [vm_compute; by repeat split|].
  cbv zeta. intros events.
  pose proof (reported_eq a_config
    (Some (<["images" := Obj ∅]>
             (<["sounds" := Obj {["click" := VStr "/click.wav"]}]> ∅)))
    no_assets events) as H.
  cbv zeta in H. rewrite H. clear H.
  assert (He : flat_map
    (advances (loaders (load a_config
       (Some (<["images" := Obj ∅]>
                (<["sounds" := Obj {["click" := VStr "/click.wav"]}]> ∅)))
       (initial no_assets)).1)) events = []).
  { induction events as [|e events IH]; [done|]. cbn [flat_map]. rewrite IH.
    rewrite app_nil_r. unfold advances.
    destruct (event_loader e) as [i|]; [|done].
    by destruct i. }
  rewrite He. vm_compute. reflexivity.
Qed.

(** The request of the splash scene after a scan that found two images
    and no font, [{ images: { logo, bunny }, sounds: {}, fonts:
    Assets.fonts, spritesheets: {} }]: four keys, one non-empty category,
    and the progress ends at 25. *)
Example splash_request_ends_at_25 :
  let m := constructor ["/src/assets/bunny.png"; "/src/assets/logo.png"] in
  let images : gmap string Value :=
    <["logo" := js_get (_images m) "logo"]>
      {["bunny" := js_get (_images m) "bunny"]} in
  let request : gmap string Ref :=
    <["images" := Obj images]>
      (<["sounds" := Obj ∅]>
        (<["fonts" := This Font]> (<["spritesheets" := Obj ∅]> ∅))) in
  let s1 := (load a_config (Some request) (initial m)).1 in
  calls (run [Progress 0 (fetched "logo" "/logo.png") 50;
              Progress 0 (fetched "bunny" "/bunny.png") 100; Complete 0] s1)
  = [12%Z; 25%Z].
Proof. vm_compute. reflexivity. Qed.

(** The font path adds the loader's cumulative progress at every item:
    two fonts alone end at 150. *)
Example fonts_progress_is_cumulative :
  let request : gmap string Ref :=
    <["fonts" := Obj {["a" := VStr "/a.xml"; "b" := VStr "/b.fnt"]}]> ∅ in
  let s1 := (load a_config (Some request) (initial no_assets)).1 in
  calls (run [Progress 0 (fetched "a" "/a.xml") 50;
              Progress 0 (fetched "b" "/b.fnt") 100; Complete 0] s1)
  = [50%Z; 150%Z].
Proof. vm_compute. reflexivity. Qed.

(** C2. [load({ sounds: { click: "/click.wav" } })]: the signal is
    [Promise.all] of a one-element array whose element is the plain array
    returned by [loadSounds]; it is fulfilled while the sound's own promise
    is still pending. *)
Theorem load_does_not_wait_for_sounds :
  let request : gmap string Ref :=
    <["sounds" := Obj {["click" := VStr "/click.wav"]}]> ∅ in
  let '(s1, signal) := load a_config (Some request) (initial no_assets) in
  signal = Normal [ItemArray [HowlPromise 0]] ∧
  promise_state s1 (HowlPromise 0) = Pending ∧
  promise_all s1 [ItemArray [HowlPromise 0]] = Fulfilled ∧
  promise_all (run [HowlLoadError 0] s1) [ItemArray [HowlPromise 0]]
    = Fulfilled.
Proof. vm_compute. by repeat split. Qed.



(** C4. [load({ sounds: { click: "/click.wav" } })]: when [load] returns
    the callback has already been called with the whole weight of the sound
    category, the sound still loading; the sound's "load" event reports
    nothing more. *)
Theorem sound_progress_reported_at_dispatch :
  let request : gmap string Ref :=
    <["sounds" := Obj {["click" := VStr "/click.wav"]}]> ∅ in
  let s1 := (load a_config (Some request) (initial no_assets)).1 in
  howls s1 = [mkHowl (VStr "/click.wav") false] ∧
  calls s1 = [100%Z] ∧
  calls (run [HowlLoad 0] s1) = [100%Z].
Proof. vm_compute. by repeat split. Qed.

(** C5. Two files with extension [png]: [logo.png] is filed under images,
    [logo.v2.png] under no category, since the scan reads the second piece
    of [filename.split(".")], here [v2], as the extension. *)
Theorem scan_reads_second_piece_as_extension :
  extension "/src/assets/logo.png" = "png" ∧
  extension "/src/assets/logo.v2.png" = "png" ∧
  file_ext "/src/assets/logo.v2.png" = Some "v2" ∧
  _images (constructor ["/src/assets/logo.png"]) !! "logo"
    = Some (VStr "/logo.png") ∧
  (∀ c, category_map c (constructor ["/src/assets/logo.v2.png"]) = ∅) ∧
  _assets (constructor ["/src/assets/logo.v2.png"]) !! "logo"
    = Some (VStr "/logo.v2.png").
Proof.
  split_and!; try (vm_compute; reflexivity).
  intros []; vm_compute; reflexivity.
Qed.

(** C6, as the claim has it: after [load({ images: { a: "/a.png" } })] on a
    manager that scanned nothing, with the image fetched and the loader
    complete, the signal is fulfilled and [images.a] is still missing; on a
    manager that scanned [a.png] it still holds the url string. *)
Lemma loaded_image_not_stored_in_images :
  let request : gmap string Ref :=
    <["images" := Obj {["a" := VStr "/a.png"]}]> ∅ in
  let events := [Progress 0 (fetched "a" "/a.png") 100; Complete 0] in
  (let '(s1, signal) := load a_config (Some request) (initial no_assets) in
   signal = Normal [ItemPromise (LoaderPromise 0)] ∧
   promise_all (run events s1) [ItemPromise (LoaderPromise 0)] = Fulfilled ∧
   _images (this (run events s1)) !! "a" = None) ∧
  (let m := constructor ["/src/assets/a.png"] in
   let s1 := (load a_config (Some request) (initial m)).1 in
   _images (this (run events s1)) !! "a" = Some (VStr "/a.png")).
Proof. vm_compute. by repeat split. Qed.

(** C6, amended. Every (id, url) pair of the images or fonts part of a
    request (a part other than the manager's own sounds map, which [load]
    itself writes) is queued, under the requested id, in a loader that
    [load] creates on [config.root] and starts; neither [load] nor anything
    the loaders do afterwards writes the images or the fonts map of the
    manager. *)
Theorem assets_queued_and_maps_untouched
    (config : Config) (assets : option (gmap string Ref))
    (m : AssetManager) (events : list Event)
    (key : string) (part : Ref) (id : string) (url : Value) :
  key = "images" ∨ key = "fonts" →
  default default_request assets !! key = Some part →
  part ≠ This Sound →
  deref m part !! id = Some url →
  let s1 := (load config assets (initial m)).1 in
  (∃ i ld, loaders s1 !! i = Some ld ∧ baseUrl ld = root config ∧
           loading ld = true ∧ (id, url) ∈ resources ld) ∧
  _images (this (run events s1)) = _images m ∧
  _fonts (this (run events s1)) = _fonts m.
Proof.
  intros Hkey Hreq Hpart Hid. cbv zeta.
  destruct (run_this_frame config assets m events) as (_ & Hi & Hf & _).
  split; [|by split].
  pose proof (keys_length_entry _ _ _ _ Hid) as Hn.
  assert (Hin : (id, url) ∈ map_to_list (deref m part))
    by by apply elem_of_map_to_list.
  destruct Hkey as [-> | ->].
  - pose proof (load_images_loader config assets (initial m) part Hreq Hn)
      as Hld.
    apply list_elem_of_lookup in Hld as [i Hld]. by eexists i, _.
  - pose proof (load_fonts_loader config assets (initial m) part Hreq Hn)
      as Hld.
    rewrite load_deref in Hld by done.
    apply list_elem_of_lookup in Hld as [i Hld]. by eexists i, _.
Qed.

Lemma assets_queued_and_maps_untouched_witness :
  let m := constructor ["/src/assets/hero.png"; "/src/assets/desyrel.xml"] in
  let events := [Progress 0 (fetched "hero" "/hero.png") 100;
                 Progress 1 (fetched "desyrel" "/desyrel.xml") 100] in
  let s1 := (load a_config None (initial m)).1 in
  _fonts (this (run events s1)) = _fonts m.
Proof.
  cbv zeta.
  refine (proj2 (proj2 (assets_queued_and_maps_untouched a_config None
    (constructor ["/src/assets/hero.png"; "/src/assets/desyrel.xml"])
    [Progress 0 (fetched "hero" "/hero.png") 100;
     Progress 1 (fetched "desyrel" "/desyrel.xml") 100]
    "fonts" (This Font) "desyrel" (VStr "/desyrel.xml") _ _ _ _)));
    [by right | vm_compute; reflexivity | discriminate
    | vm_compute; reflexivity].
Defined.



(** C8, as the claim has it: a sound that fails to load and an image that
    fails to fetch.  Neither makes the signal of [load] fail, and the failed
    sound sits in the sounds map all the same. *)
Lemma failed_item_does_not_fail_load :
  (let request : gmap string Ref :=
     <["sounds" := Obj {["a" := VStr "/a.wav"]}]> ∅ in
   let '(s1, signal) := load a_config (Some request) (initial no_assets) in
   let s2 := run [HowlLoadError 0] s1 in
   signal = Normal [ItemArray [HowlPromise 0]] ∧
   promise_all s2 [ItemArray [HowlPromise 0]] = Fulfilled ∧
   _sounds (this s2) !! "a" = Some (VHowl (VStr "/a.wav"))) ∧
  (let request : gmap string Ref :=
     <["images" := Obj {["a" := VStr "/url1"]}]> ∅ in
   let '(s1, signal) := load a_config (Some request) (initial no_assets) in
   let s2 := run [Progress 0 (failed "a") 100; Complete 0] s1 in
   signal = Normal [ItemPromise (LoaderPromise 0)] ∧
   promise_all s2 [ItemPromise (LoaderPromise 0)] = Fulfilled).
Proof. vm_compute. by repeat split. Qed.

(** C8, amended. A failing item does not fail [load]: whatever the loaders
    and sounds do, the signal is never rejected.  Nothing is rolled back:
    an id present in a category map before the call or when it returns is
    still present afterwards.  Every sound of the request is in the sounds
    map, as a [Howl], from the moment [load] returns, whether it loads or
    not, and the images map is not written. *)
Theorem load_never_rejects_nor_rolls_back
    (config : Config) (assets : option (gmap string Ref))
    (m : AssetManager) (events : list Event) :
  let request := default default_request assets in
  let s1 := (load config assets (initial m)).1 in
  let s2 := run events s1 in
  (∀ items, promise_all s2 items ≠ Rejected) ∧
  (∀ c id, is_Some (category_map c m !! id) →
           is_Some (category_map c (this s1) !! id)) ∧
  (∀ c id, is_Some (category_map c (this s1) !! id) →
           is_Some (category_map c (this s2) !! id)) ∧
  (∀ sounds id url, request !! "sounds" = Some sounds →
                    deref m sounds !! id = Some url →
                    _sounds (this s2) !! id = Some (VHowl url)) ∧
  _images (this s2) = _images m.
Proof.
  cbv zeta.
  destruct (load_this config assets (initial m)) as (Ha & Hi & Hf & Hs & Hsnd).
  destruct (frame_run events (load config assets (initial m)).1).
  cbn [this initial] in *. split_and!.
  - intros. apply promise_all_not_rejected.
  - intros [] id; cbn [category_map]; rewrite ?Hi, ?Hf, ?Hs; try done.
    rewrite Hsnd. destruct (_ =? _)%Z; [done|]. apply store_sounds_keeps.
  - intros [] id; cbn [category_map];
      rewrite ?frame_images0, ?frame_fonts0, ?frame_sounds0; auto.
  - intros sounds id url Hreq Hid. rewrite frame_sounds0, Hsnd, Hreq.
    rewrite (keys_length_entry _ _ _ _ Hid). by apply store_sounds_map.
  - congruence.
Qed.

Lemma load_never_rejects_nor_rolls_back_witness :
  let m := constructor ["/src/assets/click.wav"] in
  let s1 := (load a_config None (initial m)).1 in
  _sounds (this (run [HowlLoadError 0] s1)) !! "click"
    = Some (VHowl (VStr "/click.wav")).
Proof.
  cbv zeta.
  refine (proj1 (proj2 (proj2 (proj2 (load_never_rejects_nor_rolls_back
    a_config None (constructor ["/src/assets/click.wav"]) [HowlLoadError 0]))))
    (This Sound) "click" (VStr "/click.wav") _ _);
    vm_compute; reflexivity.
Defined.

(** C9, as the claim has it, fails after scanning [a.png] and [a.wav]: the
    images map has [a], and the combined map holds [/a.wav] for it. *)
Lemma shared_id_breaks_manifest_consistency :
  ¬ manifest_consistent
      (constructor ["/src/assets/a.png"; "/src/assets/a.wav"]).
Proof.
  intros H. destruct (H Image "a") as (url & Hurl & Hext).
  - vm_compute. eauto.
  - vm_compute in Hurl. injection Hurl as <-.
    vm_compute in Hext.
    repeat (apply elem_of_cons in Hext as [Hext|Hext]; [discriminate|]).
    by apply elem_of_nil in Hext.
Qed.

(** C9, amended. An id that the scan put in a category map has an entry
    in the combined map, and keeps it through any later [load]; when no two
    scanned files share an id, that entry is the url held by the category
    map, of one scanned file that the scan filed under that category. *)
Theorem scanned_ids_stay_in_manifest
    (config : Config) (assets : option (gmap string Ref))
    (files : list string) (events : list Event)
    (c : Category) (id : string) (v : Value) :
  category_map c (constructor files) !! id = Some v →
  let s2 := run events (load config assets (initial (constructor files))).1 in
  is_Some (_assets (this s2) !! id) ∧
  (NoDup (file_id <$> files) →
   ∃ f, f ∈ files ∧ file_id f = id ∧ classified c f = true ∧
        v = VStr (file_url f) ∧ _assets (this s2) !! id = Some v).
Proof.
  intros Hc. cbv zeta.
  destruct (run_this_frame config assets (constructor files) events)
    as (-> & _).
  destruct (scan_category_origin files c id v Hc) as (f & Hf & <- & -> & Hcl).
  split; [by apply scan_assets_complete|].
  intros Hnd. exists f. split_and!; auto.
  destruct (scan_assets_complete files f Hf) as [w Hw].
  destruct (scan_assets_origin files _ _ Hw) as (g & Hg & Hgid & ->).
  by rewrite Hw, (NoDup_fmap_eq file_id files g f Hnd Hg Hf Hgid).
Qed.

Lemma scanned_ids_stay_in_manifest_witness :
  let files := ["/src/assets/hero.png"; "/src/assets/click.wav"] in
  let s1 := (load a_config None (initial (constructor files))).1 in
  is_Some (_assets (this (run [HowlLoad 0] s1)) !! "hero").
Proof.
  cbv zeta.
  refine (proj1 (scanned_ids_stay_in_manifest a_config None
    ["/src/assets/hero.png"; "/src/assets/click.wav"] [HowlLoad 0]
    Image "hero" (VStr "/hero.png") _)).
  vm_compute. reflexivity.
Defined.

(** C10. [load()] is [load] of the request made of the manager's four
    category maps.  After a scan that found a spritesheet, the scanned url
    of the sheet therefore reaches [loadSpritesheets], where
    [data.meta.image] raises a TypeError: the call returns no signal, and
    whatever the loaders started before do, the sheet is never loaded. *)
Theorem default_load_throws_on_scanned_spritesheet :
  (∀ config s, load config None s = load config (Some default_request) s) ∧
  let m := constructor ["/src/assets/hero.png"; "/src/assets/fire.json"] in
  let '(s1, signal) := load a_config None (initial m) in
  deref m (This Spritesheet) = {["fire" := VStr "/fire.json"]} ∧
  signal = Throw TypeError ∧
  (∀ events, _spritesheets (this (run events s1)) !! "fire"
             = Some (VStr "/fire.json")).
Proof.
  split; [done|]. cbv zeta.
  destruct (load a_config None _) as [s1 signal] eqn:Hload.
  vm_compute in Hload. injection Hload as <- <-.
  split_and!; try (vm_compute; reflexivity).
  induction events as [|e events IH] using rev_ind; [vm_compute; reflexivity|].
  unfold run in *. rewrite fold_left_app. cbn [fold_left].
  set (s := fold_left step events _) in *.
  assert (Hl : ∀ i ld, loaders s !! i = Some ld →
            loading ld = true → listeners ld = [OnAssetProgress (PerImage 1)]).
  { intros i ld Hi Hb.
    pose proof (frame_run events) as Hf. unfold run in Hf.
    specialize (Hf _ : frame _ s).
    apply frame_handlers in Hf.
    apply (f_equal (fun l => l !! i)) in Hf.
    rewrite !list_lookup_fmap, Hi in Hf. cbn in Hf.
    destruct i as [|[|i]]; cbn in Hf; [| |done];
      injection Hf as Hl Hb'; congruence. }
  destruct e as [i r p|i p|i|h|h]; cbn [step]; try done.
  - destruct (loaders s !! i) as [ld|] eqn:Hi; [|done].
    destruct (loading ld) eqn:Hb; [|done].
    rewrite (Hl _ _ Hi Hb). exact IH.
  - destruct (loaders s !! i) as [ld|] eqn:Hi; [|done].
    destruct (loading ld) eqn:Hb; [|done].
    rewrite (Hl _ _ Hi Hb). exact IH.
Qed.

(** * Further properties of the scan *)

Section ScanMore.

Implicit Types (m : AssetManager) (f id : string) (c : Category).

Lemma indexOf_from_found i arr (x : option string) :
  (0 ≤ i)%Z →
  (JS.indexOf_from i arr x >? -1)%Z = true ↔ ∃ s, x = Some s ∧ s ∈ arr.
Proof.
  revert i. induction arr as [|a arr IH]; intros i Hi; cbn.
  - split; [discriminate|]. intros (s & _ & Hs). by apply elem_of_nil in Hs.
  - destruct x as [s|].
    + destruct (String.eqb_spec a s) as [->|Hne].
      * split; [|intros _; apply Z.gtb_lt; lia].
        intros _. exists s. split; [done|]. apply elem_of_cons. by left.
      * rewrite IH by lia. split; intros (t & Ht & Hin).
        -- exists t. split; [done|]. apply elem_of_cons. by right.
        -- exists t. split; [done|]. injection Ht as <-.
           apply elem_of_cons in Hin as [->|Hin]; [done|done].
    + rewrite IH by lia. split; intros (t & Ht & _); discriminate.
Qed.

Lemma classified_ext c f :
  classified c f = true ↔ ∃ ext, file_ext f = Some ext ∧ ext ∈ extensions c.
Proof. unfold classified, JS.indexOf. by apply indexOf_from_found. Qed.

Lemma scan_step_category c fs f m :
  category_map c (_importAssets (fs ++ [f]) m) =
  if classified c f
  then <[file_id f := VStr (file_url f)]> (category_map c (_importAssets fs m))
  else category_map c (_importAssets fs m).
Proof. by rewrite importAssets_snoc, import_file_category. Qed.

Lemma scan_step_assets fs f m :
  _assets (_importAssets (fs ++ [f]) m) =
  <[file_id f := VStr (file_url f)]> (_assets (_importAssets fs m)).
Proof. by rewrite importAssets_snoc, import_file_assets. Qed.

(** A scan writes the ids of its files only. *)
Lemma scan_assets_other fs m id :
  (∀ f, f ∈ fs → file_id f ≠ id) →
  _assets (_importAssets fs m) !! id = _assets m !! id.
Proof.
  induction fs as [|f fs IH] using rev_ind; intros Hid; [done|].
  rewrite scan_step_assets, lookup_insert_ne.
  - apply IH. intros g Hg. apply Hid, elem_of_app. by left.
  - apply Hid, elem_of_app. right. by apply list_elem_of_singleton.
Qed.

Lemma scan_category_other c fs m id :
  (∀ f, f ∈ fs → file_id f = id → classified c f = false) →
  category_map c (_importAssets fs m) !! id = category_map c m !! id.
Proof.
  induction fs as [|f fs IH] using rev_ind; intros Hid; [done|].
  rewrite scan_step_category.
  assert (IH' : category_map c (_importAssets fs m) !! id
                = category_map c m !! id).
  { apply IH. intros g Hg. apply Hid, elem_of_app. by left. }
  destruct (classified c f) eqn:Hc; [|done].
  rewrite lookup_insert_ne; [done|]. intros Heq.
  rewrite (Hid f) in Hc; [done| |done].
  apply elem_of_app. right. by apply list_elem_of_singleton.
Qed.



End ScanMore.





(** X3. The four extension tables are disjoint: the scan files no file
    under two categories. *)
Theorem scan_categories_exclusive (f : string) (c c' : Category) :
  classified c f = true → classified c' f = true → c = c'.
Proof.
  rewrite !classified_ext. intros (e & He & Hin) (e' & He' & Hin').
  rewrite He in He'. injection He' as <-.
  destruct c, c'; try reflexivity; exfalso;
    cbv [extensions IMG_EXTENSIONS SOUND_EXTENSIONS FONT_EXTENSIONS
         SPRITESHEET_EXTENSIONS] in Hin, Hin';
    repeat (apply elem_of_cons in Hin as [->|Hin]);
    try (by apply elem_of_nil in Hin);
    repeat (apply elem_of_cons in Hin' as [Hin'|Hin']; [discriminate|]);
    by apply elem_of_nil in Hin'.
Qed.

Lemma scan_categories_exclusive_witness :
  Image = Image.
Proof.
  refine (scan_categories_exclusive "/src/assets/hero.png" Image Image _ _);
    vm_compute; reflexivity.
Defined.

Section ScanTwice.

Implicit Types (m : AssetManager) (f id : string) (c : Category).

Lemma AssetManager_eq m1 m2 :
  _assets m1 = _assets m2 →
  (∀ c, category_map c m1 = category_map c m2) →
  m1 = m2.
Proof.
  destruct m1, m2. cbn. intros -> H.
  pose proof (H Image) as Hi. pose proof (H Sound) as Hs.
  pose proof (H Font) as Hf. pose proof (H Spritesheet) as Hp.
  cbn in *. by subst.
Qed.

(** What a scan leaves at an id depends on the files only, once one of
    them has written it. *)
Lemma scan_assets_written fs m m' id :
  (∃ f, f ∈ fs ∧ file_id f = id) →
  _assets (_importAssets fs m) !! id = _assets (_importAssets fs m') !! id.
Proof.
  induction fs as [|g fs IH] using rev_ind; intros (f & Hf & Hid);
    [by apply elem_of_nil in Hf|].
  rewrite !scan_step_assets.
  destruct (decide (file_id g = id)) as [->|Hne].
  - by rewrite !lookup_insert_eq.
  - rewrite !lookup_insert_ne by done. apply IH. exists f. split; [|done].
    apply elem_of_app in Hf as [Hf|Hf]; [done|].
    apply list_elem_of_singleton in Hf. by subst.
Qed.

Lemma scan_category_written c fs m m' id :
  (∃ f, f ∈ fs ∧ file_id f = id ∧ classified c f = true) →
  category_map c (_importAssets fs m) !! id
    = category_map c (_importAssets fs m') !! id.
Proof.
  induction fs as [|g fs IH] using rev_ind; intros (f & Hf & Hid & Hc);
    [by apply elem_of_nil in Hf|].
  rewrite !scan_step_category.
  apply elem_of_app in Hf as [Hf|Hf].
  - assert (IH' := IH (ex_intro _ f (conj Hf (conj Hid Hc)))).
    destruct (classified c g); [|done].
    destruct (decide (file_id g = id)) as [->|Hne].
    + by rewrite !lookup_insert_eq.
    + by rewrite !lookup_insert_ne.
  - apply list_elem_of_singleton in Hf. subst g.
    by rewrite Hc, Hid, !lookup_insert_eq.
Qed.

End ScanTwice.

(** X4. Scanning the same files a second time changes nothing: whatever
    maps the first scan started from, [_importAssets] is idempotent. *)
Theorem scan_twice_is_scan_once (files : list string) (m : AssetManager) :
  _importAssets files (_importAssets files m) = _importAssets files m.
Proof.
  apply AssetManager_eq.
  - apply map_eq. intros id.
    destruct (decide (Exists (fun f => file_id f = id) files)) as [Hex|Hno].
    + apply scan_assets_written. by apply Exists_exists.
    + rewrite scan_assets_other; [done|].
      intros f Hf Hid. apply Hno, Exists_exists. by exists f.
  - intros c. apply map_eq. intros id.
    destruct (decide (Exists (fun f => file_id f = id
                                      ∧ classified c f = true) files))
      as [Hex|Hno].
    + apply scan_category_written. by apply Exists_exists.
    + rewrite scan_category_other; [done|].
      intros f Hf Hid. destruct (classified c f) eqn:Hc; [|done].
      exfalso. apply Hno, Exists_exists. by exists f.
Qed.

Section FileNames.

Lemma split_dotless (a b : string) :
  dotless a = true →
  JS.split "." (a +:+ String "." b) = a :: JS.split "." b.
Proof.
  induction a as [|ch a IH]; intros Ha; [done|].
  cbn in Ha. apply andb_prop in Ha as [Hch Ha].
  change (String ch a +:+ String "." b)
    with (String ch (a +:+ String "." b)).
  cbn [JS.split]. rewrite (negb_true_iff _) in Hch.
  rewrite Hch. by rewrite IH.
Qed.

Lemma split_head_dotless (s : string) :
  ∃ a rest, JS.split "." s = a :: rest ∧ dotless a = true.
Proof.
  induction s as [|ch s (a & rest & IH & Ha)]; [by exists "", []|].
  cbn [JS.split]. destruct (Ascii.eqb ch ".") eqn:Hch.
  - by exists "", (JS.split "." s).
  - rewrite IH. exists (String ch a), rest. split; [done|].
    cbn. by rewrite Hch.
Qed.

Lemma replace_unfold (pat repl s : string) :
  JS.replace pat repl s =
  if String.prefix pat s then repl +:+ JS.drop (String.length pat) s
  else match s with
       | EmptyString => EmptyString
       | String c r => String c (JS.replace pat repl r)
       end.
Proof. by destruct s. Qed.

Lemma replace_at_start (pat s : string) :
  JS.replace pat "" (pat +:+ s) = s.
Proof.
  assert (Hp : ∀ p t, String.prefix p (p +:+ t) = true).
  { induction p as [|ch p IH]; intros t; [by destruct t|].
    change (String ch p +:+ t) with (String ch (p +:+ t)).
    cbn [String.prefix]. destruct (ascii_dec ch ch); [apply IH|done]. }
  assert (Hd : ∀ p t, JS.drop (String.length p) (p +:+ t) = t).
  { induction p as [|ch p IH]; intros t; [reflexivity|].
    change (String ch p +:+ t) with (String ch (p +:+ t)).
    cbn [String.length JS.drop]. apply IH. }
  by rewrite replace_unfold, Hp, Hd.
Qed.

End FileNames.

(** X5. For a file [/src/assets/<name>.<rest>] whose [name] has no dot
    (sub-directories included), the scan takes [name] as the id, the text
    of [rest] up to its first dot as the extension, and the path below the
    assets directory, with its leading slash, as the url. *)
Theorem scan_reads_file_name (name rest : string) :
  dotless name = true →
  let f := "/src/assets/" +:+ name +:+ String "." rest in
  file_id f = name ∧
  file_ext f = List.head (JS.split "." rest) ∧
  file_url f = "/" +:+ name +:+ String "." rest.
Proof.
  intros Hname. cbv zeta.
  assert (Hsplit : JS.split "." ("/src/assets/" +:+ name +:+ String "." rest)
                   = ("/src/assets/" +:+ name) :: JS.split "." rest).
  { assert (Hd : dotless ("/src/assets/" +:+ name) = true) by exact Hname.
    by rewrite <- (split_dotless _ rest Hd). }
  split_and!.
  - unfold file_id, file_id_raw. rewrite Hsplit. apply replace_at_start.
  - unfold file_ext. rewrite Hsplit.
    destruct (split_head_dotless rest) as (a & l & -> & _). done.
  - unfold file_url.
    change ("/src/assets/" +:+ name +:+ String "." rest)
      with (String "/" ("src/assets/" +:+ (name +:+ String "." rest))).
    rewrite replace_unfold.
    change (String.prefix "src/assets/"
              (String "/" ("src/assets/" +:+ (name +:+ String "." rest))))
      with false.
    cbv iota. by rewrite replace_at_start.
Qed.

Lemma scan_reads_file_name_witness :
  file_id "/src/assets/fonts/desyrel.xml" = "fonts/desyrel" ∧
  file_ext "/src/assets/fonts/desyrel.xml" = Some "xml" ∧
  file_url "/src/assets/fonts/desyrel.xml" = "/fonts/desyrel.xml".
Proof.
  refine (scan_reads_file_name "fonts/desyrel" "xml" _). reflexivity.
Defined.

(** * Further properties of [load] *)

Section LoadMore.

Implicit Types (s : State) (m : AssetManager).

Lemma keys_length_zero m (obj : option Ref) :
  keys_length m obj = 0%Z ↔
  match obj with Some o => deref m o = ∅ | None => True end.
Proof.
  destruct obj as [o|]; cbn; [|done].
  rewrite <- map_size_empty_iff. lia.
Qed.

Lemma step_no_loaders s e :
  loaders s = [] →
  this (step s e) = this s ∧ calls (step s e) = calls s ∧
  loaders (step s e) = [].
Proof.
  intros Hl. destruct e as [i r p|i p|i|h|h]; cbn [step]; rewrite ?Hl.
  - by destruct i.
  - by destruct i.
  - cbn. rewrite Hl. by destruct i.
  - done.
  - done.
Qed.

Lemma run_no_loaders events : ∀ s,
  loaders s = [] →
  this (run events s) = this s ∧ calls (run events s) = calls s ∧
  loaders (run events s) = [].
Proof.
  induction events as [|e events IH]; intros s Hl; [done|].
  change (run (e :: events) s) with (run events (step s e)).
  destruct (step_no_loaders s e Hl) as (Ht & Hc & Hl').
  destruct (IH _ Hl') as (Ht' & Hc' & Hl''). split_and!; congruence.
Qed.



End LoadMore.

(** X6. A request in which every category is missing or empty, whatever
    other keys it has: [load] starts nothing and returns the empty signal,
    which is fulfilled; afterwards the manager is as before and the
    progress callback is never called. *)
Theorem load_with_nothing_to_load
    (config : Config) (request : gmap string Ref) (m : AssetManager)
    (events : list Event) :
  keys_length m (request !! "images") = 0%Z →
  keys_length m (request !! "sounds") = 0%Z →
  keys_length m (request !! "fonts") = 0%Z →
  keys_length m (request !! "spritesheets") = 0%Z →
  let '(s1, signal) := load config (Some request) (initial m) in
  signal = Normal [] ∧
  loaders s1 = [] ∧ howls s1 = [] ∧
  promise_all (run events s1) [] = Fulfilled ∧
  this (run events s1) = m ∧
  calls (run events s1) = [].
Proof.
  intros Hi Hs Hf Hp. rewrite load_eq. cbv zeta.
  change (default default_request (Some request)) with request.
  cbn [this initial].
  rewrite Hi, Hs, Hf, Hp. cbn [Z.eqb].
  set (s1 := reset _ _).
  destruct (run_no_loaders events s1 eq_refl) as (Ht & Hc & _).
  by split_and!.
Qed.

Lemma load_with_nothing_to_load_witness :
  let request : gmap string Ref :=
    <["sounds" := Obj ∅]> (<["fonts" := This Font]> ∅) in
  let m := constructor ["/src/assets/hero.png"] in
  calls (run [Complete 0; HowlLoad 0]
           (load a_config (Some request) (initial m)).1) = [].
Proof.
  cbv zeta.
  pose proof (load_with_nothing_to_load a_config
    (<["sounds" := Obj ∅]> (<["fonts" := This Font]> ∅))
    (constructor ["/src/assets/hero.png"]) [Complete 0; HowlLoad 0]
    eq_refl eq_refl eq_refl eq_refl) as H.
  destruct (load a_config _ _) as [s1 signal]. apply H.
Defined.



Section Spritesheets.

Implicit Types (s : State) (m : AssetManager).


Lemma sheet_queue_Some (l q : list (string * Value)) id image :
  sheet_queue l = Some q → (id, VSheetData image) ∈ l → (id, VStr image) ∈ q.
Proof.
  revert q. induction l as [|[k d] l IH]; intros q; cbn [sheet_queue].
  - intros _ H. by apply elem_of_nil in H.
  - destruct d; try discriminate.
    destruct (sheet_queue l) as [q'|]; [|discriminate].
    intros [= <-] Hin. apply elem_of_cons in Hin as [[= -> ->]|Hin].
    + apply elem_of_cons. by left.
    + apply elem_of_cons. right. by apply IH.
Qed.


Lemma load_sheets_queue config assets s sheets s1 items :
  load config assets s = (s1, Normal items) →
  default default_request assets !! "spritesheets" = Some sheets →
  (keys_length (this s) (Some sheets) =? 0)%Z = false →
  ∃ i q, last items = Some (ItemPromise (LoaderPromise i)) ∧
         loaders s1 !! i
           = Some (mkLoader "" q [OnSheetProgress sheets Total] true false) ∧
         sheet_queue (map_to_list (deref (this s1) sheets)) = Some q.
Proof.
  intros Hload Hreq Hn. revert Hload. load_cases; rewrite Hreq in *;
    try congruence; intros [= <- <-];
    eexists _, _; (split; [reflexivity|]);
    cbn [loaders this with_loader set_loaders];
    (split; [apply list_lookup_middle; reflexivity | eassumption]).
Qed.

End Spritesheets.



(** X10. When [load] returns for a request with spritesheets (a part
    other than the manager's own sounds map), every sheet of the request is
    queued in the spritesheet loader, the last of the signal, under its
    requested id and on its [meta.image]; that loader has no base url,
    unlike those of images and fonts. *)
Theorem spritesheets_queued_without_base_url
    (config : Config) (assets : option (gmap string Ref))
    (m : AssetManager) (sheets : Ref) (s1 : State) (items : list Item)
    (id image : string) :
  load config assets (initial m) = (s1, Normal items) →
  default default_request assets !! "spritesheets" = Some sheets →
  sheets ≠ This Sound →
  deref m sheets !! id = Some (VSheetData image) →
  ∃ i ld, last items = Some (ItemPromise (LoaderPromise i)) ∧
          loaders s1 !! i = Some ld ∧
          baseUrl ld = "" ∧ loading ld = true ∧
          (id, VStr image) ∈ resources ld.
Proof.
  intros Hload Hreq Hsheets Hid.
  pose proof (keys_length_entry _ _ _ _ Hid) as Hn.
  destruct (load_sheets_queue _ _ _ _ _ _ Hload Hreq Hn)
    as (i & q & Hlast & Hld & Hq).
  exists i, (mkLoader "" q [OnSheetProgress sheets Total] true false).
  split_and!; try done. cbn [resources].
  apply (sheet_queue_Some _ _ _ _ Hq), elem_of_map_to_list.
  pose proof (load_deref config assets (initial m) sheets Hsheets) as Hd.
  rewrite Hload in Hd. cbn [fst this initial] in Hd. by rewrite Hd.
Qed.

Lemma spritesheets_queued_without_base_url_witness :
  let request : gmap string Ref :=
    <["spritesheets" := Obj {["fire" := VSheetData "/fire.png"]}]> ∅ in
  ∃ i ld,
    loaders (load a_config (Some request) (initial no_assets)).1 !! i
      = Some ld ∧
    baseUrl ld = "" ∧ ("fire", VStr "/fire.png") ∈ resources ld.
Proof.
  cbv zeta.
  destruct (spritesheets_queued_without_base_url a_config
    (Some (<["spritesheets" := Obj {["fire" := VSheetData "/fire.png"]}]> ∅))
    no_assets (Obj {["fire" := VSheetData "/fire.png"]})
    (load a_config
       (Some (<["spritesheets" :=
                  Obj {["fire" := VSheetData "/fire.png"]}]> ∅))
       (initial no_assets)).1
    [ItemPromise (LoaderPromise 0)] "fire" "/fire.png")
    as (i & ld & _ & Hld & Hb & _ & Hin);
    [vm_compute; reflexivity | vm_compute; reflexivity | discriminate
    | vm_compute; reflexivity |].
  exists i, ld. split; [exact Hld | split; [exact Hb | exact Hin]].
Defined.

(** * Further properties of the progress *)

Section ProgressMore.

Implicit Types (s : State) (m : AssetManager) (n : Z) (acc v : Q).


Lemma total_proper n acc acc' vals :
  (acc == acc')%Q → (total n acc vals == total n acc' vals)%Q.
Proof.
  revert acc acc'. induction vals as [|v vals IH]; intros acc acc' H; [done|].
  cbn. apply IH. by rewrite H.
Qed.


Lemma last_running_sums n vals : ∀ acc,
  vals ≠ [] → last (running_sums n acc vals) = Some (total n acc vals).
Proof.
  induction vals as [|v vals IH]; intros acc Hne; [done|].
  destruct vals as [|w vals]; [done|].
  cbn [running_sums]. rewrite last_cons_cons.
  change (last (running_sums n (acc + v / inject_Z n) (w :: vals))
          = Some (total n (acc + v / inject_Z n) (w :: vals))).
  by apply IH.
Qed.

(** One loader, that of the images: each resource it reports hands
    [100 / imagesCount] to [calcTotalProgress], nothing else does. *)
Lemma advances_images_only (ld : Loader) n events :
  listeners ld = [OnAssetProgress (PerImage n)] → loading ld = true →
  flat_map (advances [ld]) events
  = repeat (100 / inject_Z n)%Q (count_reports 0 events).
Proof.
  intros Hl Hb. induction events as [|e events IH]; [done|].
  cbn [flat_map]. rewrite IH. clear IH.
  destruct e as [i r p|i p|i|h|h]; cbn [count_reports]; try done.
  - destruct i as [|i]; [|done].
    unfold advances. cbn. by rewrite Hb, Hl.
  - destruct i as [|i]; [|done].
    unfold advances. cbn. by rewrite Hb, Hl.
Qed.

Lemma last_reported config assets m events :
  let request := default default_request assets in
  let s1 := (load config assets (initial m)).1 in
  let vals :=
    dispatched m request ++ flat_map (advances (loaders s1)) events in
  vals ≠ [] →
  last (calls (run events s1))
  = Some (JS.parseInt (total (Z.of_nat (size request)) 0 vals)).
Proof.
  cbv zeta. intros Hne. rewrite reported_eq.
  change (map JS.parseInt ?l) with (JS.parseInt <$> l).
  by rewrite fmap_last, last_running_sums.
Qed.

End ProgressMore.

Section ImagesAndSounds.

Implicit Types (s : State) (m : AssetManager).

Variables (config : Config) (request : gmap string Ref) (m : AssetManager).
Variable images : Ref.
Hypothesis Hkeys :
  ∀ k, is_Some (request !! k) → k = "images" ∨ k = "sounds".
Hypothesis Himages : request !! "images" = Some images.
Hypothesis Hnonempty : ∀ k r, request !! k = Some r → deref m r ≠ ∅.






End ImagesAndSounds.



(** * Further properties of the signal *)

Section Signal.

Implicit Types (s : State) (m : AssetManager) (e : Event).

Lemma promise_all_fulfilled s items :
  promise_all s items = Fulfilled ↔
  ∀ it, it ∈ items → item_state s it = Fulfilled.
Proof.
  unfold promise_all.
  assert (H : existsb (fun it => is_rejected (item_state s it)) items = false).
  { induction items as [|it items IH]; [done|]. cbn. rewrite IH.
    destruct it as [p|ps]; cbn; [|done].
    pose proof (promise_state_not_rejected s p).
    by destruct (promise_state s p). }
  rewrite H.
  destruct (forallb _ items) eqn:Hall.
  - split; [|done]. intros _ it Hin.
    rewrite forallb_forall in Hall.
    apply list_elem_of_In, Hall in Hin. by destruct (item_state s it).
  - split; [discriminate|]. intros Hf. exfalso.
    assert (forallb (fun it => is_fulfilled (item_state s it)) items = true);
      [|congruence].
    apply forallb_forall. intros it Hin%list_elem_of_In.
    by rewrite (Hf it Hin).
Qed.

Lemma signal_waits_for_loaders s items :
  awaits_loaders (length (loaders s)) items →
  promise_all s items = Fulfilled ↔
  Forall (fun ld => completed ld = true) (loaders s).
Proof.
  intros [Hseq Hnohowl]. rewrite promise_all_fulfilled, Forall_lookup. split.
  - intros Hall i ld Hld.
    assert (Hi : i ∈ omap awaited_loader items).
    { rewrite Hseq. apply elem_of_seq. apply lookup_lt_Some in Hld. lia. }
    apply list_elem_of_omap in Hi as (it & Hin & Hit).
    specialize (Hall it Hin).
    destruct it as [[j|h]|ps]; try discriminate. injection Hit as ->.
    cbn in Hall. rewrite Hld in Hall. by destruct (completed ld).
  - intros Hall it Hin. destruct it as [[j|h]|ps]; [| |done].
    + assert (Hj : j ∈ omap awaited_loader items).
      { apply list_elem_of_omap. by eexists. }
      rewrite Hseq in Hj. apply elem_of_seq in Hj.
      destruct (lookup_lt_is_Some_2 (loaders s) j) as [ld Hld]; [lia|].
      cbn. rewrite Hld. by rewrite (Hall j ld Hld).
    + by destruct (Hnohowl h).
Qed.

Lemma load_awaits config assets m s1 items :
  load config assets (initial m) = (s1, Normal items) →
  awaits_loaders (length (loaders s1)) items.
Proof.
  rewrite load_eq. cbv zeta. 
  repeat match goal with
    | |- context [if (keys_length ?m ?o =? 0)%Z then _ else _] =>
        destruct (keys_length m o =? 0)%Z
    end;
  try match goal with
    | |- context [sheet_queue ?l] => destruct (sheet_queue l)
    end;
  cbv beta iota; intros [= <- <-]; (split; [reflexivity|]);
  intros h Hin;
  repeat (apply elem_of_cons in Hin as [Hin|Hin]; [discriminate|]);
  by apply elem_of_nil in Hin.
Qed.

Lemma run_loaders_length events s :
  length (loaders (run events s)) = length (loaders s).
Proof.
  pose proof (frame_handlers _ _ (frame_run events s)) as H.
  apply (f_equal length) in H. by rewrite !length_fmap in H.
Qed.

(** Listeners touch neither loaders nor sounds. *)
Lemma fold_listeners_objects (f : State → Listener → State) ls :
  (∀ s l, loaders (f s l) = loaders s ∧ howls (f s l) = howls s) →
  ∀ s, loaders (fold_left f ls s) = loaders s ∧
       howls (fold_left f ls s) = howls s.
Proof.
  intros Hf. induction ls as [|l ls IH]; intros s; [done|]. cbn.
  destruct (IH (f s l)) as [-> ->]. apply Hf.
Qed.

Lemma on_progress_objects r p s l :
  loaders (on_progress r p s l) = loaders s ∧
  howls (on_progress r p s l) = howls s.
Proof. by destruct l as [[]|]. Qed.

Lemma on_parsed_objects p s l :
  loaders (on_parsed p s l) = loaders s ∧ howls (on_parsed p s l) = howls s.
Proof. by destruct l as [|? []]. Qed.

Lemma step_started s e :
  Forall started_if_completed (loaders s) →
  Forall started_if_completed (loaders (step s e)).
Proof.
  intros Hs. destruct e as [i r p|i p|i|h|h]; cbn [step]; try done.
  - destruct (loaders s !! i) as [ld|]; [|done].
    destruct (loading ld); [|done].
    by rewrite (proj1 (fold_listeners_objects _ _
                         (on_progress_objects r p) s)).
  - destruct (loaders s !! i) as [ld|]; [|done].
    destruct (loading ld); [|done].
    by rewrite (proj1 (fold_listeners_objects _ _ (on_parsed_objects p) s)).
  - cbn. apply Forall_alter; [done|]. intros ld _ _ H. exact H.
Qed.

Lemma run_started events : ∀ s,
  Forall started_if_completed (loaders s) →
  Forall started_if_completed (loaders (run events s)).
Proof.
  induction events as [|e events IH]; intros s Hs; [done|].
  apply (IH (step s e)). by apply step_started.
Qed.

Lemma step_keeps_fulfilled s e p :
  Forall started_if_completed (loaders s) →
  promise_state s p = Fulfilled → promise_state (step s e) p = Fulfilled.
Proof.
  intros Hs Hp.
  assert (Hobj : ∀ i r q, 
    (loaders (match loaders s !! i with
              | Some ld => if loading ld
                           then fold_left (on_progress r q) (listeners ld) s
                           else s
              | None => s end) = loaders s ∧
     howls (match loaders s !! i with
            | Some ld => if loading ld
                         then fold_left (on_progress r q) (listeners ld) s
                         else s
            | None => s end) = howls s) ∧
    (loaders (match loaders s !! i with
              | Some ld => if loading ld
                           then fold_left (on_parsed q) (listeners ld) s
                           else s
              | None => s end) = loaders s ∧
     howls (match loaders s !! i with
            | Some ld => if loading ld
                         then fold_left (on_parsed q) (listeners ld) s
                         else s
            | None => s end) = howls s)).
  { intros i r q. destruct (loaders s !! i) as [ld|]; [|done].
    destruct (loading ld); [|done]. split.
    - apply fold_listeners_objects, on_progress_objects.
    - apply fold_listeners_objects, on_parsed_objects. }
  destruct e as [i r q|i q|i|h|h]; cbn [step]; try done.
  - destruct (Hobj i r q) as [[Hl Hh] _].
    destruct p; cbn [promise_state] in *; by rewrite ?Hl, ?Hh.
  - destruct (Hobj i (mkResource "" None false) q) as [_ [Hl Hh]].
    destruct p; cbn [promise_state] in *; by rewrite ?Hl, ?Hh.
  - destruct p as [j|h]; cbn [promise_state set_loaders loaders howls] in *;
      [|done].
    rewrite list_lookup_alter. case_decide; [subst i|done].
    destruct (loaders s !! j) as [ld|] eqn:Hld; [|done].
    destruct (completed ld) eqn:Hc; [|done]. cbn.
    rewrite Forall_lookup in Hs. by rewrite (Hs _ _ Hld Hc).
  - destruct p as [j|k]; cbn [promise_state set_howls loaders howls] in *;
      [done|].
    rewrite list_lookup_alter. case_decide; [subst h|done].
    by destruct (howls s !! k) as [hw|].
Qed.

Lemma load_started config assets s :
  Forall started_if_completed (loaders s) →
  Forall started_if_completed (loaders (load config assets s).1).
Proof.
  intros Hs. load_cases; cbn; rewrite ?Forall_app; repeat split; auto;
    by repeat constructor.
Qed.

End Signal.

(** X12. When [load] returns, its signal is fulfilled exactly when every
    loader [load] has started has completed; the sounds play no part. *)
Theorem signal_fulfilled_iff_loaders_completed
    (config : Config) (assets : option (gmap string Ref))
    (m : AssetManager) (s1 : State) (items : list Item)
    (events : list Event) :
  load config assets (initial m) = (s1, Normal items) →
  promise_all (run events s1) items = Fulfilled ↔
  Forall (fun ld => completed ld = true) (loaders (run events s1)).
Proof.
  intros Hload. apply signal_waits_for_loaders.
  rewrite run_loaders_length. by eapply load_awaits.
Qed.

Lemma signal_fulfilled_iff_loaders_completed_witness :
  let request : gmap string Ref :=
    <["images" := Obj {["a" := VStr "/a.png"]}]>
      (<["sounds" := Obj {["click" := VStr "/click.wav"]}]> ∅) in
  promise_all
    (run [Progress 0 (fetched "a" "/a.png") 100; Complete 0]
       (load a_config (Some request) (initial no_assets)).1)
    [ItemPromise (LoaderPromise 0); ItemArray [HowlPromise 0]] = Fulfilled.
Proof.
  cbv zeta.
  apply (signal_fulfilled_iff_loaders_completed a_config
    (Some (<["images" := Obj {["a" := VStr "/a.png"]}]>
             (<["sounds" := Obj {["click" := VStr "/click.wav"]}]> ∅)))
    no_assets
    (load a_config
       (Some (<["images" := Obj {["a" := VStr "/a.png"]}]>
                (<["sounds" := Obj {["click" := VStr "/click.wav"]}]> ∅)))
       (initial no_assets)).1
    [ItemPromise (LoaderPromise 0); ItemArray [HowlPromise 0]]).
  - vm_compute. reflexivity.
  - vm_compute. by repeat constructor.
Defined.

(** X13. A signal of [load] that is fulfilled stays fulfilled, whatever
    the loaders and sounds do next: no event takes a completion or a
    sound's "load" back. *)
Theorem fulfilled_signal_stays_fulfilled
    (config : Config) (assets : option (gmap string Ref))
    (m : AssetManager) (items : list Item) (events later : list Event) :
  let s1 := (load config assets (initial m)).1 in
  promise_all (run events s1) items = Fulfilled →
  promise_all (run (events ++ later) s1) items = Fulfilled.
Proof.
  cbv zeta. unfold run at 2. rewrite fold_left_app.
  fold (run events (load config assets (initial m)).1).
  assert (Hs : Forall started_if_completed
                 (loaders (run events (load config assets (initial m)).1))).
  { apply run_started, load_started. constructor. }
  revert Hs. generalize (run events (load config assets (initial m)).1).
  induction later as [|e later IH]; intros s Hs Hf; [done|].
  cbn [fold_left]. apply IH; [by apply step_started|].
  rewrite promise_all_fulfilled in *. intros it Hin.
  specialize (Hf it Hin). destruct it as [p|ps]; [|done].
  by apply step_keeps_fulfilled.
Qed.

Lemma fulfilled_signal_stays_fulfilled_witness :
  let request : gmap string Ref :=
    <["images" := Obj {["a" := VStr "/a.png"]}]> ∅ in
  promise_all
    (run ([Progress 0 (fetched "a" "/a.png") 100; Complete 0]
          ++ [Progress 0 (failed "a") 100; Complete 0; Complete 1])
       (load a_config (Some request) (initial no_assets)).1)
    [ItemPromise (LoaderPromise 0)] = Fulfilled.
Proof.
  cbv zeta.
  apply (fulfilled_signal_stays_fulfilled a_config
    (Some (<["images" := Obj {["a" := VStr "/a.png"]}]> ∅)) no_assets
    [ItemPromise (LoaderPromise 0)]
    [Progress 0 (fetched "a" "/a.png") 100; Complete 0]
    [Progress 0 (failed "a") 100; Complete 0; Complete 1]).
  vm_compute. reflexivity.
Defined.

(** * Further properties: repeated loads, failures, the splash request *)

Section Again.

Implicit Types (s : State) (m : AssetManager).

Lemma default_load_sound config m events id url :
  _sounds m !! id = Some url →
  _sounds (this (run events (load config None (initial m)).1)) !! id
    = Some (VHowl url).
Proof.
  intros Hid.
  destruct (load_this config None (initial m)) as (_ & _ & _ & _ & Hsnd).
  rewrite (frame_sounds _ _ (frame_run events _)), Hsnd.
  change (default default_request None !! "sounds") with (Some (This Sound)).
  rewrite (keys_length_entry (this (initial m)) (This Sound) id url Hid).
  by apply store_sounds_map.
Qed.


End Again.

(** X14. [load()] with no argument is not repeatable for sounds: the first
    call replaces the url of every sound of the manager by a [Howl] on that
    url, and a second call makes a [Howl] whose source is the first
    [Howl]. *)
Theorem default_load_twice_wraps_howls
    (config : Config) (m : AssetManager) (events events' : list Event)
    (id : string) (url : Value) :
  _sounds m !! id = Some url →
  let m1 := this (run events (load config None (initial m)).1) in
  let m2 := this (run events' (load config None (initial m1)).1) in
  _sounds m1 !! id = Some (VHowl url) ∧
  _sounds m2 !! id = Some (VHowl (VHowl url)).
Proof.
  intros Hid. cbv zeta.
  pose proof (default_load_sound config m events id url Hid) as H1.
  split; [done|]. by apply default_load_sound.
Qed.

Lemma default_load_twice_wraps_howls_witness :
  let m := constructor ["/src/assets/click.wav"] in
  let m1 := this (run [HowlLoad 0] (load a_config None (initial m)).1) in
  let m2 := this (run [] (load a_config None (initial m1)).1) in
  _sounds m2 !! "click" = Some (VHowl (VHowl (VStr "/click.wav"))).
Proof.
  cbv zeta.
  refine (proj2 (default_load_twice_wraps_howls a_config
    (constructor ["/src/assets/click.wav"]) [HowlLoad 0] [] "click"
    (VStr "/click.wav") _)).
  vm_compute. reflexivity.
Defined.


(** X16. [load] of the request the splash scene builds, on a manager
    without fonts: the request has four keys, two of them always empty,
    and always two images, scanned or not; once the image loader has
    reported twice, the progress stands at 25. *)
Theorem splash_request_stops_at_25
    (config : Config) (m : AssetManager) (events : list Event) :
  _fonts m = ∅ →
  count_reports 0 events = 2 →
  let s1 := (load config (Some (Splash_preload m)) (initial m)).1 in
  assetTypesCount s1 = 4%Z ∧
  keys_length m (Splash_preload m !! "images") = 2%Z ∧
  last (calls (run events s1)) = Some 25%Z.
Proof.
  intros Hfonts Hcount. cbv zeta.
  assert (Hsize : size (Splash_preload m) = 4) by reflexivity.
  assert (Hi : keys_length m (Splash_preload m !! "images") = 2%Z)
    by reflexivity.
  assert (Hf : keys_length m (Splash_preload m !! "fonts") = 0%Z).
  { change (Splash_preload m !! "fonts") with (Some (This Font)).
    cbn. by rewrite Hfonts, map_size_empty. }
  destruct (load_progress config (Some (Splash_preload m)) (initial m))
    as (Hn & _ & _).
  change (default default_request (Some (Splash_preload m)))
    with (Splash_preload m) in Hn.
  rewrite Hsize in Hn. split_and!; [done|done|].
  assert (Hl : ∃ ld,
    loaders (load config (Some (Splash_preload m)) (initial m)).1 = [ld] ∧
    listeners ld = [OnAssetProgress (PerImage 2)] ∧ loading ld = true).
  { rewrite load_eq. cbv zeta.
    change (default default_request (Some (Splash_preload m)))
      with (Splash_preload m).
    cbn [this initial]. rewrite Hi, Hf.
    change (keys_length m (Splash_preload m !! "sounds")) with 0%Z.
    change (keys_length m (Splash_preload m !! "spritesheets")) with 0%Z.
    cbn [Z.eqb Pos.eqb fst loaders with_loader set_loaders reset initial app].
    eexists. split; [reflexivity|]. split; reflexivity. }
  destruct Hl as (ld & Hl & Hls & Hb).
  pose proof (last_reported config (Some (Splash_preload m)) m events)
    as Hlast.
  cbv zeta in Hlast.
  change (default default_request (Some (Splash_preload m)))
    with (Splash_preload m) in Hlast.
  rewrite Hl, Hsize in Hlast.
  rewrite (advances_images_only ld 2 events Hls Hb), Hcount in Hlast.
  change (dispatched m (Splash_preload m)) with (@nil Q) in Hlast.
  rewrite Hlast; [|done]. vm_compute. reflexivity.
Qed.

Lemma splash_request_stops_at_25_witness :
  let m := constructor ["/src/assets/bunny.png"; "/src/assets/logo.png";
                        "/src/assets/click.wav"] in
  last (calls (run [Progress 0 (fetched "logo" "/logo.png") 50;
                    Progress 0 (fetched "bunny" "/bunny.png") 100;
                    Complete 0]
                 (load a_config (Some (Splash_preload m)) (initial m)).1))
    = Some 25%Z.
Proof.
  cbv zeta.
  refine (proj2 (proj2 (splash_request_stops_at_25 a_config
    (constructor ["/src/assets/bunny.png"; "/src/assets/logo.png";
                  "/src/assets/click.wav"])
    [Progress 0 (fetched "logo" "/logo.png") 50;
     Progress 0 (fetched "bunny" "/bunny.png") 100; Complete 0] _ _)));
    vm_compute; reflexivity.
Defined.
